(** * pakkun: the header parser, the brace balancer and the file aggregator
    of [src/parse/parse.go], embedded in Rocq.

    Go strings and byte slices are sequences of bytes: they are modelled by
    [string] (a list of 8-bit [ascii]).  The type universe
    [map[string]bool] is a [gmap string bool].  A run-time panic (an index
    out of range) and [log.Fatal] end the process; both are outcomes of
    their own, next to a normal return. *)

From Stdlib Require Import String Ascii List ZArith Lia Bool Permutation.
From stdpp Require Import base gmap strings.

Import ListNotations.
Local Open Scope string_scope.
Local Open Scope list_scope.

(** ** Outcomes: a Go call returns, panics, or ends the process through
    [log.Fatal]. *)

Inductive Outcome (A : Type) : Type :=
| Returns (a : A)
| Panics
| Fatal.

Arguments Returns {A} a.
Arguments Panics {A}.
Arguments Fatal {A}.

Definition obind {A B : Type} (o : Outcome A) (k : A -> Outcome B) : Outcome B :=
  match o with
  | Returns a => k a
  | Panics => Panics
  | Fatal => Fatal
  end.

Notation "'do' x <- o ; k" := (obind o (fun x => k))
  (at level 10, x pattern, o at level 100, k at level 200).

(** ** The part of Go's [strings] package the program calls. *)

Module GoStrings.

(** The numeric value of a byte, as in the comparisons [arr[m] == 123]. *)
Definition byteval (c : ascii) : Z := Z.of_N (N_of_ascii c).

Definition byte (n : N) : ascii := ascii_of_N n.

Definition len (s : string) : Z := Z.of_nat (String.length s).

(** [s[i]] for a Go [int] index: out of range is a panic. *)
Definition index (s : string) (i : Z) : Outcome ascii :=
  if (i <? 0)%Z then Panics
  else match String.get (Z.to_nat i) s with
       | Some c => Returns c
       | None => Panics
       end.

Fixpoint hasPrefix (p s : string) : bool :=
  match p, s with
  | EmptyString, _ => true
  | String a p', String b s' => if Ascii.eqb a b then hasPrefix p' s' else false
  | String _ _, EmptyString => false
  end.

(** [strings.Split(s, sep)] for a non-empty [sep] (every call site passes a
    non-empty literal): the pieces between the successive, non-overlapping
    occurrences of [sep], scanning from the left.  [skip] counts the bytes of
    a separator that was just matched and are still to be passed over.  The
    head of the result is the piece being built. *)
Fixpoint splitFrom (sep : string) (skip : nat) (s : string) : list string :=
  match s with
  | EmptyString => [EmptyString]
  | String a s' =>
      match skip with
      | S k => splitFrom sep k s'
      | O =>
          if hasPrefix sep s
          then EmptyString :: splitFrom sep (String.length sep - 1) s'
          else match splitFrom sep 0 s' with
               | piece :: rest => String a piece :: rest
               | [] => [String a EmptyString]
               end
      end
  end.

Definition Split (s sep : string) : list string := splitFrom sep 0 s.

(** [strings.Join(l, sep)]. *)
Fixpoint Join (l : list string) (sep : string) : string :=
  match l with
  | [] => EmptyString
  | [x] => x
  | x :: rest => x +:+ sep +:+ Join rest sep
  end.

(** [strings.Replace(s, old, new, -1)] for a non-empty [old]: all the
    non-overlapping occurrences, from the left. *)
Definition ReplaceAll (s old new : string) : string := Join (Split s old) new.

(** [strings.Index(s, sub)]: the offset of the first occurrence, or -1. *)
Fixpoint indexFrom (sub s : string) (i : Z) : Z :=
  if hasPrefix sub s then i
  else match s with
       | EmptyString => (-1)%Z
       | String _ s' => indexFrom sub s' (i + 1)
       end.

Definition Index (s sub : string) : Z := indexFrom sub s 0.

(** White space as [unicode.IsSpace] has it, in UTF-8: the six ASCII
    characters of the [asciiSpace] table, U+0085, U+00A0, U+1680,
    U+2000..U+200A, U+2028, U+2029, U+202F, U+205F and U+3000. *)
Definition bytes (l : list N) : string := string_of_list_ascii (map byte l).

Definition spaceRunes : list string :=
  map bytes
    [ [9]; [10]; [11]; [12]; [13]; [32];
      [194; 133]; [194; 160]; [225; 154; 128];
      [226; 128; 128]; [226; 128; 129]; [226; 128; 130]; [226; 128; 131];
      [226; 128; 132]; [226; 128; 133]; [226; 128; 134]; [226; 128; 135];
      [226; 128; 136]; [226; 128; 137]; [226; 128; 138];
      [226; 128; 168]; [226; 128; 169]; [226; 128; 175];
      [226; 129; 159]; [227; 128; 128] ]%N.

Fixpoint dropn (n : nat) (s : string) : string :=
  match n, s with
  | O, _ => s
  | S k, String _ s' => dropn k s'
  | S _, EmptyString => EmptyString
  end.

(** The length of the white-space rune [s] starts with, if any. *)
Definition leadingSpace (runes : list string) (s : string) : option nat :=
  match List.filter (fun r => hasPrefix r s) runes with
  | r :: _ => Some (String.length r)
  | [] => None
  end.

(** [strings.TrimLeftFunc(s, unicode.IsSpace)]; [fuel] bounds the number of
    runes removed, and the length of [s] is always enough. *)
Fixpoint trimLeftRunes (runes : list string) (fuel : nat) (s : string) : string :=
  match fuel with
  | O => s
  | S k =>
      match leadingSpace runes s with
      | Some n => trimLeftRunes runes k (dropn n s)
      | None => s
      end
  end.

Fixpoint revString (s acc : string) : string :=
  match s with
  | EmptyString => acc
  | String a s' => revString s' (String a acc)
  end.

Definition revBytes (s : string) : string := revString s EmptyString.

Definition TrimLeft (s : string) : string :=
  trimLeftRunes spaceRunes (String.length s) s.

Definition TrimRight (s : string) : string :=
  revBytes (trimLeftRunes (map revBytes spaceRunes) (String.length s) (revBytes s)).

(** [strings.TrimSpace(s)]: leading and trailing white space removed. *)
Definition TrimSpace (s : string) : string := TrimRight (TrimLeft s).

(** [s[lo:hi]]: a panic unless [0 <= lo <= hi <= len(s)]. *)
Definition slice (s : string) (lo hi : Z) : Outcome string :=
  if ((0 <=? lo) && (lo <=? hi) && (hi <=? len s))%Z
  then Returns (String.substring (Z.to_nat lo) (Z.to_nat (hi - lo)) s)
  else Panics.

End GoStrings.

Import GoStrings.

Definition nl : string := bytes [10%N].
Definition tab : string := bytes [9%N].

(** [Split(s, sep)[0]]: the index is always in range, see [Split_nonempty]. *)
Definition Split0 (s sep : string) : string :=
  match Split s sep with
  | piece :: _ => piece
  | [] => EmptyString
  end.

(** ** Data model *)

Record Function := mkFunction {
  fn_Id : Z;
  fn_Name : string;
  fn_Header : string;
  fn_InType : list string;
  fn_OutType : list string;
  fn_Source : string
}.

Record File := mkFile {
  f_Id : Z;
  f_Name : string;
  f_Path : string;
  f_Funcs : list Function
}.

(** The zero value of [File] ([var file File]). *)
Definition zeroFile : File := mkFile 0 "" "" [].

(** [hash]: 32-bit FNV-1a. *)
Definition fnvStep (h : Z) (c : ascii) : Z :=
  ((Z.lxor h (byteval c)) * 16777619) mod 2 ^ 32.

Definition hash (s : string) : Z :=
  fold_left fnvStep (list_ascii_of_string s) 2166136261%Z.

(** ** The concurrent validator

    Every candidate type is checked by a goroutine of its own; all of them
    are joined ([wg.Wait]) before the flag and the lists are read.  A
    goroutine is one [Task], taken as one atomic step; the order in which
    the tasks take effect is chosen by the scheduler, modelled by a
    [Schedule] that rearranges the tasks spawned.

    The goroutines are not synchronised: [in = append(in, t)] and
    [out = append(out, t)] read the list and write it back, so an append
    that races with another one to the same list can be lost, while the
    store [*halt = true] cannot.  A goroutine whose append is lost leaves
    no trace: such a run is the run of a schedule that leaves that task
    out, see [lossy] below.  A schedule that is [fair] loses nothing. *)

Inductive Task :=
| CheckReturn (t : string)
| CheckParam (i : nat) (t : string).

Record Checks := mkChecks {
  c_in : list string;
  c_out : list string;
  c_halt : bool;
  c_parameters : list string
}.

Definition runTask (funcTypes : gmap string bool) (st : Checks) (k : Task) : Checks :=
  match k with
  | CheckReturn t =>
      let t := TrimSpace t in
      match funcTypes !! t with
      | Some true => mkChecks (c_in st) (c_out st ++ [t]) (c_halt st) (c_parameters st)
      | Some false => st
      | None => mkChecks (c_in st) (c_out st) true (c_parameters st)
      end
  | CheckParam i t =>
      let t := TrimSpace (Split0 t ",") in
      let params := <[i := t]> (c_parameters st) in
      match funcTypes !! t with
      | Some true => mkChecks (c_in st ++ [t]) (c_out st) (c_halt st) params
      | Some false => mkChecks (c_in st) (c_out st) (c_halt st) params
      | None => mkChecks (c_in st) (c_out st) true params
      end
  end.

Definition Schedule : Type := forall A : Type, list A -> list A.

Definition programOrder : Schedule := fun _ l => l.

Definition fair (sched : Schedule) : Prop :=
  forall (A : Type) (l : list A), Permutation l (sched A l).

(** The goroutines of the parameter loop: one for every even index. *)
Fixpoint paramTasks (i : nat) (parameters : list string) : list Task :=
  match parameters with
  | [] => []
  | t :: rest =>
      (if Nat.even i then [CheckParam i t] else []) ++ paramTasks (S i) rest
  end.

(** ** The header parser *)

Record Parsed := mkParsed {
  p_name : string;
  p_in : list string;
  p_out : list string;
  p_ok : bool
}.

(** Step 1 of the parser: the comment cut off, white space trimmed. *)
Definition cleanHeader (header : string) : string :=
  TrimSpace (Split0 header "//").

(** The tokens before the function name, and the parameter tokens. *)
Definition leftTokens (lhs : string) : list string :=
  removelast (Split lhs " ").

Definition paramTokens (rhs : string) : list string :=
  Split (Split0 rhs ")") " ".

Definition returnTasks (nonparameters : list string) : list Task :=
  if (2 <? length nonparameters)%nat then map CheckReturn nonparameters else [].

Definition parseJavaFuncHeader (sched : Schedule) (header : string)
    (funcTypes : gmap string bool) : Outcome Parsed :=
  let header := cleanHeader header in
  do c <- index header (len header - 1);
  if (byteval c =? 59)%Z then Returns (mkParsed header [] [] false)
  else
    match Split header "(" with
    | [lhs; rhs] =>
        let fname := List.last (Split lhs " ") EmptyString in
        let nonparameters := leftTokens lhs in
        let parameters := paramTokens rhs in
        let tasks := returnTasks nonparameters ++ paramTasks 0 parameters in
        let st := fold_left (runTask funcTypes) (sched Task tasks)
                    (mkChecks [] [] false parameters) in
        if c_halt st || (length nonparameters <=? 2)%nat
        then Returns (mkParsed EmptyString (c_in st) (c_out st) false)
        else Returns (mkParsed fname (c_in st) (c_out st) true)
    | _ => Returns (mkParsed EmptyString [] [] false)
    end.

(** ** The brace balancer *)

(** First loop of [balance]: [rest] is [arr[m:]]; the result is the index
    just after the first opening brace, or [None] when the end of the
    buffer comes first. *)
Fixpoint findOpen (rest : string) (m : Z) : option Z :=
  match rest with
  | EmptyString => None
  | String b rest' =>
      if (byteval b =? 123)%Z then Some (m + 1)%Z else findOpen rest' (m + 1)%Z
  end.

(** Second loop: [rest] is [arr[m:]]; the result is [m] and [count] when
    the loop is left. *)
Fixpoint matchBraces (rest : string) (m count : Z) : Z * Z :=
  match rest with
  | EmptyString => (m, count)
  | String b rest' =>
      let count := if (byteval b =? 123)%Z then (count + 1)%Z else count in
      let count := if (byteval b =? 125)%Z then (count - 1)%Z else count in
      if (count =? 0)%Z then (m, count) else matchBraces rest' (m + 1)%Z count
  end.

(** [balance].  A negative [m] passes the test [m < len(arr)] and
    [arr[m]] panics.  The diagnostic written to /tmp/dat1 when no opening
    brace is found does not change what is returned. *)
Definition balance (arr : string) (m : Z) : Outcome string :=
  let start := m in
  if (m <? 0)%Z then Panics
  else
    match findOpen (dropn (Z.to_nat m) arr) m with
    | None => Returns EmptyString
    | Some m1 =>
        let '(m2, count) := matchBraces (dropn (Z.to_nat m1) arr) m1 1 in
        if negb (count =? 0)%Z then Returns EmptyString
        else
          do body <- slice arr start (m2 + 1);
          Returns (ReplaceAll (ReplaceAll body nl EmptyString) tab EmptyString)
    end.

(** ** Source extraction *)

Definition setSource (fn : Function) (src : string) : Function :=
  mkFunction (fn_Id fn) (fn_Name fn) (fn_Header fn) (fn_InType fn) (fn_OutType fn) src.

(** The loop of [extractFuncSrc]: [n] iterations are left ([funcLen - fi],
    with [funcLen] read once, before the loop). *)
Fixpoint extractLoop (content : string) (n fi : nat) (funcs : list Function)
    : Outcome (list Function) :=
  match n with
  | O => Returns funcs
  | S n' =>
      match funcs !! fi with
      | None => Panics
      | Some fn =>
          if (len (fn_Header fn) =? 0)%Z then Fatal
          else
            do src <- balance content (Index content (fn_Header fn));
            if (0 <? len src)%Z
            then extractLoop content n' (S fi) (<[fi := setSource fn src]> funcs)
            else extractLoop content n' (S fi) (take fi funcs ++ drop (S fi) funcs)
      end
  end.

(** [disk] is the content of the file at [f.Path], [None] when there is no
    such file. *)
Definition extractFuncSrc (disk : option string) (f : File) : Outcome File :=
  match disk with
  | None => Returns f
  | Some content =>
      do funcs <- extractLoop content (length (f_Funcs f)) 0 (f_Funcs f);
      Returns (mkFile (f_Id f) (f_Name f) (f_Path f) funcs)
  end.

(** ** The file aggregator *)

(** The goroutine of [ParseFile] for one header. *)
Definition headerFunc (sched : Schedule) (funcTypes : gmap string bool)
    (header : string) : Outcome (list Function) :=
  do p <- parseJavaFuncHeader sched header funcTypes;
  if p_ok p && (0 <? length (p_in p))%nat && (0 <? length (p_out p))%nat
  then Returns [mkFunction (hash (p_name p +:+ TrimSpace header)) (p_name p)
                  (TrimSpace (ReplaceAll header "{" EmptyString))
                  (p_in p) (p_out p) EmptyString]
  else Returns [].

(** The goroutines of the headers, one after the other in the order the
    scheduler gives.  They are not synchronised either:
    [funcHeaders = append(funcHeaders, fn)] can lose a Function to a racing
    append; such a run is the run of a schedule that leaves the header of
    that Function out. *)
Fixpoint collectFuncs (sched : Schedule) (funcTypes : gmap string bool)
    (headers : list string) : Outcome (list Function) :=
  match headers with
  | [] => Returns []
  | h :: rest =>
      do fn <- headerFunc sched funcTypes h;
      do fns <- collectFuncs sched funcTypes rest;
      Returns (fn ++ fns)
  end.

(** What [ParseFile] gets from outside: the lines the ctags | grep | awk
    pipeline prints for a path, and the file system. *)
Record Env := mkEnv {
  headerLines : string -> list string;
  readFile : string -> option string
}.

Definition funcHeaders (env : Env) (sched : Schedule) (path : string)
    (funcTypes : gmap string bool) : Outcome (list Function) :=
  let ctagHeaders := map (fun l => l +:+ nl) (headerLines env path) in
  collectFuncs sched funcTypes (sched string ctagHeaders).

Definition ParseFile (env : Env) (sched : Schedule) (path : string)
    (funcTypes : gmap string bool) : Outcome (File * bool) :=
  let fname := List.last (Split path "/") EmptyString in
  do funcHeaders <- funcHeaders env sched path funcTypes;
  if (0 <? length funcHeaders)%nat
  then
    do file <- extractFuncSrc (readFile env path)
                 (mkFile (hash path) fname path funcHeaders);
    Returns (file, true)
  else Returns (zeroFile, false).

(** The universe of the end-to-end scenarios, and the same universe with
    the two modifiers known but not desired. *)
Definition scenarioTypes : gmap string bool :=
  <["int" := true]> (<["String" := true]> (<["float" := false]> ∅)).

Definition scenarioTypesWithModifiers : gmap string bool :=
  <["public" := false]> (<["static" := false]> scenarioTypes).

(** ** What the claims speak about *)

(** The declared types of a header: the tokens before the function name and
    the even-indexed tokens of the parameter list, as they are looked up. *)
Definition declaredType (header t : string) : Prop :=
  exists lhs rhs,
    Split (cleanHeader header) "(" = [lhs; rhs] /\
    ((exists tok, In tok (leftTokens lhs) /\ t = TrimSpace tok) \/
     (exists i tok, Nat.even i = true /\ paramTokens rhs !! i = Some tok /\
                    t = TrimSpace (Split0 tok ","))).

(** Text whose braces are balanced. *)
Inductive balanced : string -> Prop :=
| bal_empty : balanced EmptyString
| bal_other c s :
    byteval c <> 123%Z -> byteval c <> 125%Z -> balanced s -> balanced (String c s)
| bal_nest s t :
    balanced s -> balanced t -> balanced ("{" +:+ s +:+ "}" +:+ t).

(** No opening brace in [s]. *)
Fixpoint noOpen (s : string) : bool :=
  match s with
  | EmptyString => true
  | String c s' => negb (byteval c =? 123)%Z && noOpen s'
  end.

(** The normalisation of [balance]: newlines and tabs removed. *)
Definition oneLine (s : string) : string :=
  ReplaceAll (ReplaceAll s nl EmptyString) tab EmptyString.

(** What the tasks of a header contribute, whatever their order. *)
Definition taskIn (funcTypes : gmap string bool) (k : Task) : list string :=
  match k with
  | CheckReturn _ => []
  | CheckParam _ t =>
      let t := TrimSpace (Split0 t ",") in
      match funcTypes !! t with Some true => [t] | _ => [] end
  end.

Definition taskOut (funcTypes : gmap string bool) (k : Task) : list string :=
  match k with
  | CheckReturn t =>
      let t := TrimSpace t in
      match funcTypes !! t with Some true => [t] | _ => [] end
  | CheckParam _ _ => []
  end.

Definition taskType (k : Task) : string :=
  match k with
  | CheckReturn t => TrimSpace t
  | CheckParam _ t => TrimSpace (Split0 t ",")
  end.

Definition taskHalts (funcTypes : gmap string bool) (k : Task) : bool :=
  match funcTypes !! taskType k with
  | None => true
  | Some _ => false
  end.

(** The goroutines spawned for a header whose two sides are [lhs] and [rhs]. *)
Definition headerTasks (lhs rhs : string) : list Task :=
  returnTasks (leftTokens lhs) ++ paramTasks 0 (paramTokens rhs).

(** A schedule that runs the goroutines in the reverse of spawn order. *)
Definition reverseOrder : Schedule := fun _ l => List.rev l.

(** The goroutines spawned for a header. *)
Definition spawned (header : string) : list Task :=
  match Split (cleanHeader header) "(" with
  | [lhs; rhs] => headerTasks lhs rhs
  | _ => []
  end.

(** Two tasks append to the same list. *)
Definition sameList (k k' : Task) : bool :=
  match k, k' with
  | CheckReturn _, CheckReturn _ => true
  | CheckParam _ _, CheckParam _ _ => true
  | _, _ => false
  end.

(** A run of the checks of [header] in which appends may be lost to the
    race: the tasks that take effect are the spawned ones, in some order,
    but for some tasks of desired types, whose append (their only effect)
    was overwritten by the append of a task to the same list that does
    take effect. *)
Definition lossy (funcTypes : gmap string bool) (sched : Schedule)
    (header : string) : Prop :=
  exists lost : list Task,
    Permutation (spawned header) (sched Task (spawned header) ++ lost) /\
    Forall (fun k =>
              funcTypes !! taskType k = Some true /\
              exists k', In k' (sched Task (spawned header)) /\
                         sameList k k' = true /\
                         funcTypes !! taskType k' = Some true) lost.

(** A schedule that leaves the last task out. *)
Definition dropsLast : Schedule := fun _ l => removelast l.

(** The text [s] with its newline (10) and tab (9) bytes left out. *)
Fixpoint withoutBreaks (s : string) : string :=
  match s with
  | EmptyString => EmptyString
  | String c s' =>
      if (byteval c =? 10)%Z || (byteval c =? 9)%Z then withoutBreaks s'
      else String c (withoutBreaks s')
  end.

(** ** Inputs of the scenarios *)

Definition scenarioA : string := "public static int add(int a, int b) {".

Definition scenarioD : string := "public static Unknown weird(int a) {".

Definition threeTokenHeader : string := "public int add(int a) {".

Definition headerF : string := "public static int f(int a) {".

Definition headerG : string := "public static int g(int b) {".

(** A file in which the braces of [f] never balance and those of [g] do. *)
Definition truncatedF : string :=
  "public static int f(int a) { if (a > 0) {" +:+ nl +:+
  "public static int g(int b) { return b; }" +:+ nl.

(** A file in which the header of [add] is laid out with two spaces, so that
    the header text the pipeline prints does not occur in it. *)
Definition respaced : string :=
  "public static int add(int a,  int b) {" +:+ nl +:+
  tab +:+ "return a + b;" +:+ nl +:+ "}" +:+ nl.

Definition envOf (lines : list string) (content : string) : Env :=
  mkEnv (fun _ => lines) (fun _ => Some content).

Definition functionF : Function :=
  mkFunction (hash ("f" +:+ headerF)) "f" "public static int f(int a)" ["int"] ["int"] EmptyString.

Definition functionG : Function :=
  mkFunction (hash ("g" +:+ headerG)) "g" "public static int g(int b)" ["int"] ["int"] EmptyString.

(** A file in which the braces of both [f] and [g] balance. *)
Definition wholeFile : string :=
  "public static int f(int a) { if (a > 0) { return a; } return 0; }" +:+ nl +:+
  "public static int g(int b) { return b; }" +:+ nl.

(** ** The rest of the file: language tables, names, slice insertion *)

(** [f.GetFuncs()]: the names of the Functions, appended one by one. *)
Definition GetFuncs (f : File) : list string :=
  fold_left (fun fn f => fn ++ [fn_Name f]) (f_Funcs f) [].

Definition langMap : gmap string string :=
  list_to_map
    [("c", "c"); ("c++", "cpp"); ("cpp", "cpp"); ("c#", "cs");
     ("cs", "cs"); ("erlang", "erl"); ("java", "java");
     ("javascript", "js"); ("lisp", "lsp"); ("lua", "lua"); ("python", "py")].

Definition extMap : gmap string string :=
  list_to_map
    [("c", "function"); ("cpp", "function"); ("cs", "method");
     ("erl", "function"); ("java", "method"); ("js", "function");
     ("lsp", "function"); ("lua", "function"); ("py", "function")].

(** Indexing a Go map of strings gives the empty string for a missing key. *)
Definition getLangExt (lang : string) : string :=
  default EmptyString (langMap !! TrimSpace lang).

Definition getFuncTerm (ext : string) : string :=
  default EmptyString (extMap !! ext).

(** The pattern [ParseFile] hands to grep: [getFuncTerm(fname)], where
    [fname] is the last segment of the path. *)
Definition grepTerm (path : string) : string :=
  getFuncTerm (List.last (Split path "/") EmptyString).

Module Slices.

(** A byte slice: the bytes of its backing array from the first element of
    the slice up to its capacity, and its length. *)
Record ByteSlice := mkSlice {
  s_array : list ascii;
  s_len : Z
}.

Definition cap (slice : ByteSlice) : Z := Z.of_nat (length (s_array slice)).

(** The elements of the slice. *)
Definition elems (slice : ByteSlice) : list ascii :=
  take (Z.to_nat (s_len slice)) (s_array slice).

Definition wf (slice : ByteSlice) : Prop :=
  (0 <= s_len slice <= cap slice)%Z.

(** [copy] between two windows of one array: [n] bytes from offset [src] to
    offset [dst], as if read before any is written. *)
Definition copyBytes (arr : list ascii) (dst src n : nat) : list ascii :=
  take dst arr ++ take n (drop src arr) ++ drop (dst + n) arr.

(** [insert]: the slice is extended by one element within its capacity, the
    elements from [index] on are moved up by one, and [item] is stored at
    [index].  Each slice expression and the indexing panic out of range. *)
Definition insert (slice : ByteSlice) (index : Z) (item : ascii) : Outcome ByteSlice :=
  let n := (s_len slice + 1)%Z in
  if (cap slice <? n)%Z then Panics
  else if ((index + 1 <? 0) || (n <? index + 1))%Z then Panics
  else if ((index <? 0) || (n <? index))%Z then Panics
  else
    let i := Z.to_nat index in
    let count := Nat.min (Z.to_nat n - (i + 1)) (Z.to_nat n - i) in
    let arr := copyBytes (s_array slice) (i + 1) i count in
    if ((index <? 0) || (n <=? index))%Z then Panics
    else Returns (mkSlice (<[i := item]> arr) n).

End Slices.

(** ** More notions for the properties *)

(** The byte [c] occurs in [s]; the number of its occurrences. *)
Fixpoint containsByte (c : ascii) (s : string) : bool :=
  match s with
  | EmptyString => false
  | String a s' => Ascii.eqb c a || containsByte c s'
  end.

Fixpoint countByte (c : ascii) (s : string) : nat :=
  match s with
  | EmptyString => O
  | String a s' => ((if Ascii.eqb c a then 1 else 0) + countByte c s')%nat
  end.

(** Text that closes [n] braces that were open before it: [n] balanced
    pieces, each followed by a closing brace. *)
Inductive unwinds : nat -> string -> Prop :=
| unwinds_O : unwinds O EmptyString
| unwinds_S n w s :
    balanced w -> unwinds n s -> unwinds (S n) (w +:+ String "}" s).

(** What the loop of [extractFuncSrc] makes of a Function whose source is
    found. *)
Definition extracted (content : string) (fn : Function) : Function :=
  match balance content (Index content (fn_Header fn)) with
  | Returns src => setSource fn src
  | _ => fn
  end.

(** Extraction succeeds for [fn]: a header that is not empty and a source
    that is not empty. *)
Definition extractable (content : string) (fn : Function) : Prop :=
  fn_Header fn <> EmptyString /\
  exists src, balance content (Index content (fn_Header fn)) = Returns src /\
              src <> EmptyString.

(** What header filtering guarantees of a Function: a header that is not
    empty and holds no opening brace, input and output types that are not
    empty, every one of them a desired type of the universe. *)
Definition qualifies (funcTypes : gmap string bool) (fn : Function) : Prop :=
  fn_Header fn <> EmptyString /\
  containsByte "{" (fn_Header fn) = false /\
  fn_InType fn <> [] /\ fn_OutType fn <> [] /\
  Forall (fun t => funcTypes !! t = Some true) (fn_InType fn) /\
  Forall (fun t => funcTypes !! t = Some true) (fn_OutType fn).

(** * Properties *)

(** ** Strings *)

Section StringFacts.

Lemma splitFrom_nonempty sep skip s : splitFrom sep skip s <> [].
Proof.
  revert skip; induction s as [|a s IH]; intros skip; simpl; [discriminate|].
  destruct skip as [|k]; [|apply IH].
  destruct (hasPrefix sep (String a s)); [discriminate|].
  destruct (splitFrom sep 0 s); discriminate.
Qed.

Lemma Split_nonempty s sep : Split s sep <> [].
Proof. apply splitFrom_nonempty. Qed.

Lemma Split_byte_cons (c a : ascii) (s : string) :
  Split (String a s) (String c EmptyString) =
  if Ascii.eqb c a then EmptyString :: Split s (String c EmptyString)
  else match Split s (String c EmptyString) with
       | piece :: rest => String a piece :: rest
       | [] => [String a EmptyString]
       end.
Proof. unfold Split; simpl. destruct (Ascii.eqb c a); reflexivity. Qed.

(** Splitting at a byte, on the two sides of an occurrence of it. *)
Lemma Split_byte_app (c : ascii) (l r : string) :
  Split (l +:+ String c r) (String c EmptyString) =
  Split l (String c EmptyString) ++ Split r (String c EmptyString).
Proof.
  induction l as [|a l IH].
  - change (EmptyString +:+ String c r) with (String c r).
    rewrite Split_byte_cons, Ascii.eqb_refl. reflexivity.
  - change (String a l +:+ String c r) with (String a (l +:+ String c r)).
    rewrite !Split_byte_cons, IH.
    destruct (Ascii.eqb c a); [reflexivity|].
    destruct (Split l (String c EmptyString)) as [|p q] eqn:E; [|reflexivity].
    exfalso; exact (Split_nonempty _ _ E).
Qed.

Lemma Split_byte_single (c : ascii) (s x : string) :
  Split s (String c EmptyString) = [x] -> x = s.
Proof.
  revert x; induction s as [|a s IH]; intros x.
  - unfold Split; simpl. congruence.
  - rewrite Split_byte_cons.
    destruct (Split s (String c EmptyString)) as [|p q] eqn:E.
    + exfalso; exact (Split_nonempty _ _ E).
    + destruct (Ascii.eqb c a); [discriminate|].
      intros H; inversion H; subst. f_equal. apply IH. reflexivity.
Qed.

Lemma app_cons (a : ascii) (p s : string) : String a p +:+ s = String a (p +:+ s).
Proof. reflexivity. Qed.

Lemma app_empty (s : string) : EmptyString +:+ s = s.
Proof. reflexivity. Qed.

Lemma dropn_app (p s : string) : dropn (String.length p) (p +:+ s) = s.
Proof.
  induction p as [|a p IH]; [rewrite app_empty; destruct s; reflexivity|].
  rewrite app_cons. exact IH.
Qed.

Lemma length_append (p s : string) :
  String.length (p +:+ s) = (String.length p + String.length s)%nat.
Proof.
  induction p as [|a p IH]; [reflexivity|].
  rewrite app_cons. simpl. f_equal. exact IH.
Qed.

Lemma app_assoc_s (p q r : string) : (p +:+ q) +:+ r = p +:+ (q +:+ r).
Proof.
  induction p as [|a p IH]; [reflexivity|].
  rewrite !app_cons. f_equal. exact IH.
Qed.

Lemma substring_prefix (x s : string) :
  String.substring 0 (String.length x) (x +:+ s) = x.
Proof.
  induction x as [|a x IH].
  - rewrite app_empty. destruct s; reflexivity.
  - rewrite app_cons. simpl. f_equal. exact IH.
Qed.

Lemma substring_middle (p x s : string) :
  String.substring (String.length p) (String.length x) (p +:+ x +:+ s) = x.
Proof.
  induction p as [|a p IH]; [exact (substring_prefix x s)|].
  rewrite app_cons. exact IH.
Qed.

Lemma get_last_some (a : ascii) (s : string) :
  exists c, String.get (String.length s) (String a s) = Some c.
Proof.
  revert a; induction s as [|b s IH]; intros a; simpl; [eauto|apply IH].
Qed.

(** [header[len(header)-1]] is in range exactly for a non-empty header. *)
Lemma index_last (s : string) :
  s <> EmptyString -> exists c, index s (len s - 1) = Returns c.
Proof.
  destruct s as [|a s]; [congruence|]; intros _.
  unfold index, len. simpl String.length.
  replace (Z.of_nat (S (String.length s)) - 1)%Z with (Z.of_nat (String.length s)) by lia.
  destruct (Z.ltb_spec (Z.of_nat (String.length s)) 0); [lia|].
  rewrite Nat2Z.id.
  destruct (get_last_some a s) as [c ->]. eauto.
Qed.

(** The fuel of the trimming loops is enough: what [TrimLeft] returns does
    not start with white space, and what [TrimRight] returns does not end
    with it. *)
Lemma hasPrefix_empty (r : string) : r <> EmptyString -> hasPrefix r EmptyString = false.
Proof. destruct r; [congruence|reflexivity]. Qed.

Lemma leadingSpace_some (runes : list string) (s : string) (n : nat) :
  leadingSpace runes s = Some n ->
  exists r, In r runes /\ hasPrefix r s = true /\ n = String.length r.
Proof.
  unfold leadingSpace.
  destruct (List.filter _ runes) as [|r l] eqn:E; [discriminate|].
  intros H; injection H as <-.
  assert (Hin : In r (List.filter (fun r => hasPrefix r s) runes))
    by (rewrite E; left; reflexivity).
  apply filter_In in Hin as [Hin Hp]. eauto.
Qed.

Lemma length_dropn (n : nat) (s : string) :
  (1 <= n)%nat -> s <> EmptyString ->
  (String.length (dropn n s) < String.length s)%nat.
Proof.
  revert s; induction n as [|n IH]; intros s Hn Hs; [lia|].
  destruct s as [|a s]; [congruence|]. simpl.
  destruct n as [|n]; [simpl; lia|].
  destruct s as [|b s]; [simpl; lia|].
  specialize (IH (String b s)). simpl in *.
  assert (String.length (dropn n s) < S (String.length s))%nat; [|lia].
  apply IH; [lia|discriminate].
Qed.

Lemma trimLeftRunes_done (runes : list string) (fuel : nat) (s : string) :
  Forall (fun r => r <> EmptyString) runes ->
  (String.length s <= fuel)%nat ->
  leadingSpace runes (trimLeftRunes runes fuel s) = None.
Proof.
  intros Hr. revert s; induction fuel as [|fuel IH]; intros s Hlen.
  - destruct s; [|simpl in Hlen; lia]. simpl.
    destruct (leadingSpace runes EmptyString) as [n|] eqn:E; [|reflexivity].
    apply leadingSpace_some in E as (r & Hin & Hp & _).
    rewrite List.Forall_forall in Hr.
    rewrite (hasPrefix_empty r (Hr r Hin)) in Hp. discriminate.
  - simpl. destruct (leadingSpace runes s) as [n|] eqn:E; [|exact E].
    destruct (leadingSpace_some _ _ _ E) as (r & Hin & Hp & ->).
    rewrite List.Forall_forall in Hr. pose proof (Hr r Hin) as Hne.
    apply IH.
    assert (Hs : s <> EmptyString).
    { intros ->. rewrite hasPrefix_empty in Hp by exact Hne. discriminate. }
    assert (1 <= String.length r)%nat by (destruct r; [congruence|simpl; lia]).
    pose proof (length_dropn (String.length r) s ltac:(lia) Hs). lia.
Qed.

Lemma length_revString (s acc : string) :
  String.length (revString s acc) = (String.length s + String.length acc)%nat.
Proof.
  revert acc; induction s as [|a s IH]; intros acc; [reflexivity|].
  simpl. rewrite IH. simpl. lia.
Qed.

Lemma spaceRunes_nonempty : Forall (fun r => r <> EmptyString) spaceRunes.
Proof. repeat (constructor; [discriminate|]). constructor. Qed.

Lemma TrimLeft_done (s : string) : leadingSpace spaceRunes (TrimLeft s) = None.
Proof. apply trimLeftRunes_done; [apply spaceRunes_nonempty|lia]. Qed.

Lemma TrimRight_done (s : string) :
  exists t, TrimRight s = revBytes t /\
            leadingSpace (map revBytes spaceRunes) t = None.
Proof.
  eexists; split; [reflexivity|].
  apply trimLeftRunes_done.
  - repeat (constructor; [discriminate|]). constructor.
  - unfold revBytes. rewrite length_revString. simpl. lia.
Qed.

End StringFacts.

(** ** The validator: what a round of tasks leaves behind *)

Section Validator.

Variable funcTypes : gmap string bool.

Lemma runTask_effect (st : Checks) (k : Task) :
  c_in (runTask funcTypes st k) = c_in st ++ taskIn funcTypes k /\
  c_out (runTask funcTypes st k) = c_out st ++ taskOut funcTypes k /\
  c_halt (runTask funcTypes st k) = c_halt st || taskHalts funcTypes k.
Proof.
  destruct k as [t|i t]; unfold runTask, taskIn, taskOut, taskHalts, taskType;
    simpl; destruct (funcTypes !! _) as [[|]|]; simpl;
    rewrite ?app_nil_r, ?orb_false_r, ?orb_true_r; auto.
Qed.

Lemma runTasks_effect (tasks : list Task) (st : Checks) :
  c_in (fold_left (runTask funcTypes) tasks st)
    = c_in st ++ flat_map (taskIn funcTypes) tasks /\
  c_out (fold_left (runTask funcTypes) tasks st)
    = c_out st ++ flat_map (taskOut funcTypes) tasks /\
  c_halt (fold_left (runTask funcTypes) tasks st)
    = c_halt st || existsb (taskHalts funcTypes) tasks.
Proof.
  revert st; induction tasks as [|k tasks IH]; intros st; simpl.
  - rewrite !app_nil_r, orb_false_r. auto.
  - destruct (IH (runTask funcTypes st k)) as (Hi & Ho & Hh).
    destruct (runTask_effect st k) as (Ki & Ko & Kh).
    rewrite Hi, Ho, Hh, Ki, Ko, Kh, <- !app_assoc, orb_assoc. auto.
Qed.

Lemma taskIn_desired (tasks : list Task) :
  Forall (fun t => funcTypes !! t = Some true) (flat_map (taskIn funcTypes) tasks).
Proof.
  induction tasks as [|k tasks IH]; simpl; [constructor|].
  apply Forall_app; split; [|exact IH].
  destruct k as [t|i t]; simpl; [constructor|].
  destruct (funcTypes !! _) as [[|]|] eqn:E; repeat constructor. exact E.
Qed.

Lemma taskOut_desired (tasks : list Task) :
  Forall (fun t => funcTypes !! t = Some true) (flat_map (taskOut funcTypes) tasks).
Proof.
  induction tasks as [|k tasks IH]; simpl; [constructor|].
  apply Forall_app; split; [|exact IH].
  destruct k as [t|i t]; simpl; [|constructor].
  destruct (funcTypes !! _) as [[|]|] eqn:E; repeat constructor. exact E.
Qed.

Lemma halts_in (tasks : list Task) (k : Task) :
  In k tasks -> funcTypes !! taskType k = None ->
  existsb (taskHalts funcTypes) tasks = true.
Proof.
  intros Hin Habs. apply existsb_exists. exists k. split; [exact Hin|].
  unfold taskHalts. rewrite Habs. reflexivity.
Qed.

End Validator.

Lemma existsb_perm {A : Type} (f : A -> bool) (l l' : list A) :
  Permutation l l' -> existsb f l = existsb f l'.
Proof.
  induction 1; simpl; try congruence.
  destruct (f x), (f y); reflexivity.
Qed.

Lemma paramTasks_lookup (parameters : list string) (i j : nat) (tok : string) :
  parameters !! i = Some tok -> Nat.even (j + i) = true ->
  In (CheckParam (j + i) tok) (paramTasks j parameters).
Proof.
  revert i j; induction parameters as [|t rest IH]; intros i j Hl He.
  - destruct i; discriminate.
  - simpl. apply in_or_app. destruct i as [|i].
    + left. rewrite Nat.add_0_r in *. rewrite He.
      injection Hl as ->. left; reflexivity.
    + right. replace (j + S i)%nat with (S j + i)%nat in * by lia.
      apply IH; assumption.
Qed.

(** ** The parser, case by case *)

Section Parser.

Variable sched : Schedule.
Variable funcTypes : gmap string bool.

Lemma parse_empty (header : string) :
  cleanHeader header = EmptyString ->
  parseJavaFuncHeader sched header funcTypes = Panics.
Proof. unfold parseJavaFuncHeader. intros ->. reflexivity. Qed.

Lemma parse_terminator (header : string) (c : ascii) :
  index (cleanHeader header) (len (cleanHeader header) - 1) = Returns c ->
  (byteval c =? 59)%Z = true ->
  parseJavaFuncHeader sched header funcTypes
    = Returns (mkParsed (cleanHeader header) [] [] false).
Proof. unfold parseJavaFuncHeader. intros -> Hc. simpl. rewrite Hc. reflexivity. Qed.

Lemma parse_no_split (header : string) (c : ascii) :
  index (cleanHeader header) (len (cleanHeader header) - 1) = Returns c ->
  (byteval c =? 59)%Z = false ->
  length (Split (cleanHeader header) "(") <> 2%nat ->
  parseJavaFuncHeader sched header funcTypes
    = Returns (mkParsed EmptyString [] [] false).
Proof.
  unfold parseJavaFuncHeader. intros -> Hc Hn. simpl. rewrite Hc.
  destruct (Split (cleanHeader header) "(") as [|a [|b [|d l]]]; simpl in Hn;
    try reflexivity. congruence.
Qed.

Lemma parse_split (header : string) (c : ascii) (lhs rhs : string) :
  fair sched ->
  index (cleanHeader header) (len (cleanHeader header) - 1) = Returns c ->
  (byteval c =? 59)%Z = false ->
  Split (cleanHeader header) "(" = [lhs; rhs] ->
  exists p,
    parseJavaFuncHeader sched header funcTypes = Returns p /\
    Permutation (flat_map (taskIn funcTypes) (headerTasks lhs rhs)) (p_in p) /\
    Permutation (flat_map (taskOut funcTypes) (headerTasks lhs rhs)) (p_out p) /\
    p_ok p = negb (existsb (taskHalts funcTypes) (headerTasks lhs rhs)
                   || (length (leftTokens lhs) <=? 2)%nat) /\
    p_name p = if p_ok p then List.last (Split lhs " ") EmptyString else EmptyString.
Proof.
  intros Hfair Hi Hc Hs. unfold parseJavaFuncHeader.
  rewrite Hi. simpl obind. rewrite Hc, Hs.
  fold (headerTasks lhs rhs).
  destruct (runTasks_effect funcTypes (sched Task (headerTasks lhs rhs))
              (mkChecks [] [] false (paramTokens rhs))) as (Ei & Eo & Eh).
  simpl in Ei, Eo, Eh.
  pose proof (Hfair Task (headerTasks lhs rhs)) as Hp.
  rewrite <- (existsb_perm _ _ _ Hp) in Eh.
  set (st := fold_left _ _ _) in *.
  assert (Pi : Permutation (flat_map (taskIn funcTypes) (headerTasks lhs rhs)) (c_in st)).
  { rewrite Ei. apply Permutation_flat_map. exact Hp. }
  assert (Po : Permutation (flat_map (taskOut funcTypes) (headerTasks lhs rhs)) (c_out st)).
  { rewrite Eo. apply Permutation_flat_map. exact Hp. }
  rewrite Eh.
  destruct (existsb _ _ || _) eqn:E; eexists; (split; [reflexivity|]); simpl; auto.
Qed.

(** The parser returns for every header that is not empty once cleaned. *)
Lemma parse_total (header : string) :
  cleanHeader header <> EmptyString ->
  exists p, parseJavaFuncHeader sched header funcTypes = Returns p.
Proof.
  intros Hne. destruct (index_last _ Hne) as [c Hc].
  unfold parseJavaFuncHeader. rewrite Hc. simpl obind.
  destruct (byteval c =? 59)%Z; [eauto|].
  destruct (Split _ "(") as [|a [|b [|d l]]]; eauto.
  destruct (c_halt _ || _); eauto.
Qed.

End Parser.

Lemma parse_panics_iff (sched : Schedule) (header : string) (funcTypes : gmap string bool) :
  parseJavaFuncHeader sched header funcTypes = Panics <-> cleanHeader header = EmptyString.
Proof.
  split; [|apply parse_empty].
  intros Hp. destruct (cleanHeader header) as [|a s] eqn:E; [reflexivity|].
  destruct (parse_total sched funcTypes header) as [p Hr]; [rewrite E; discriminate|].
  congruence.
Qed.

Lemma split_pair_nonempty (h lhs rhs : string) :
  Split h "(" = [lhs; rhs] -> h <> EmptyString.
Proof. intros Hs ->. discriminate Hs. Qed.

(** ** The claims about the header parser *)

(** C1: whenever the parser accepts a header, every element of the input
    types and of the output types it returns is a key of the universe whose
    value is true.  This holds whatever order the checks ran in. *)
Theorem accepted_types_desired (sched : Schedule) (header : string)
    (funcTypes : gmap string bool) (p : Parsed) :
  parseJavaFuncHeader sched header funcTypes = Returns p ->
  p_ok p = true ->
  Forall (fun t => funcTypes !! t = Some true) (p_in p) /\
  Forall (fun t => funcTypes !! t = Some true) (p_out p).
Proof.
  unfold parseJavaFuncHeader. intros Hr Hok.
  destruct (index _ _) as [c| |]; simpl obind in Hr; try discriminate.
  destruct (byteval c =? 59)%Z.
  { injection Hr as <-. discriminate Hok. }
  destruct (Split _ "(") as [|lhs [|rhs [|d l]]];
    try (injection Hr as <-; discriminate Hok).
  set (tasks := sched Task _) in Hr.
  destruct (runTasks_effect funcTypes tasks (mkChecks [] [] false (paramTokens rhs)))
    as (Ei & Eo & _).
  simpl in Ei, Eo.
  destruct (c_halt _ || _); injection Hr as <-; [discriminate Hok|].
  simpl. rewrite Ei, Eo. split; [apply taskIn_desired|apply taskOut_desired].
Qed.

Lemma accepted_types_desired_witness :
  Forall (fun t => scenarioTypesWithModifiers !! t = Some true) ["int"; "int"] /\
  Forall (fun t => scenarioTypesWithModifiers !! t = Some true) ["int"].
Proof.
  apply (accepted_types_desired programOrder scenarioA scenarioTypesWithModifiers
           (mkParsed "add" ["int"; "int"] ["int"] true)).
  - vm_compute. reflexivity.
  - reflexivity.
Defined.

(** C2, as the spec has it, fails: under the universe of scenario A the
    modifiers [public] and [static] are not keys, so the header is
    rejected. *)
Lemma scenarioA_rejected :
  parseJavaFuncHeader programOrder scenarioA scenarioTypes
    = Returns (mkParsed EmptyString ["int"; "int"] ["int"] false) /\
  parseJavaFuncHeader programOrder scenarioA scenarioTypes
    <> Returns (mkParsed "add" ["int"; "int"] ["int"] true).
Proof.
  assert (E : parseJavaFuncHeader programOrder scenarioA scenarioTypes
              = Returns (mkParsed EmptyString ["int"; "int"] ["int"] false))
    by (vm_compute; reflexivity).
  split; [exact E|]. rewrite E. discriminate.
Qed.

Lemma scenarioA_shape :
  index (cleanHeader scenarioA) (len (cleanHeader scenarioA) - 1) = Returns "{"%char /\
  Split (cleanHeader scenarioA) "(" = ["public static int add"; "int a, int b) {"] /\
  headerTasks "public static int add" "int a, int b) {"
    = [CheckReturn "public"; CheckReturn "static"; CheckReturn "int";
       CheckParam 0 "int"; CheckParam 2 "int"].
Proof. vm_compute. auto. Qed.

(** Runs with lost appends. *)
Section LossyRuns.

Variable funcTypes : gmap string bool.

Lemma flat_map_nonempty {A B : Type} (f : A -> list B) (l : list A) (x : A) :
  In x l -> f x <> [] -> flat_map f l <> [].
Proof.
  induction l as [|y l IH]; intros Hin Hx; [destruct Hin|].
  simpl. destruct Hin as [->|Hin].
  - destruct (f x); [congruence|discriminate].
  - intros E. apply app_eq_nil in E as [_ E]. exact (IH Hin Hx E).
Qed.

Lemma desired_no_halt (k : Task) :
  funcTypes !! taskType k = Some true -> taskHalts funcTypes k = false.
Proof. unfold taskHalts. intros ->. reflexivity. Qed.

Lemma desired_appends (k : Task) :
  funcTypes !! taskType k = Some true ->
  match k with
  | CheckReturn _ => taskOut funcTypes k <> [] /\ taskIn funcTypes k = []
  | CheckParam _ _ => taskIn funcTypes k <> [] /\ taskOut funcTypes k = []
  end.
Proof.
  destruct k as [t|i t]; simpl; intros ->; split; (discriminate || reflexivity).
Qed.

(** What the lost tasks would have appended, and that a list that lost an
    append is not empty. *)
Lemma lost_effect (run lost : list Task) :
  Forall (fun k =>
            funcTypes !! taskType k = Some true /\
            exists k', In k' run /\ sameList k k' = true /\
                       funcTypes !! taskType k' = Some true) lost ->
  existsb (taskHalts funcTypes) lost = false /\
  (flat_map (taskIn funcTypes) lost = [] \/ flat_map (taskIn funcTypes) run <> []) /\
  (flat_map (taskOut funcTypes) lost = [] \/ flat_map (taskOut funcTypes) run <> []).
Proof.
  induction 1 as [|k lost (Hk & k' & Hin & Hsame & Hk') _ (IHh & IHi & IHo)].
  - repeat split; auto.
  - simpl. rewrite (desired_no_halt k Hk), IHh.
    split; [reflexivity|].
    pose proof (desired_appends k Hk) as Ak.
    pose proof (desired_appends k' Hk') as Ak'.
    destruct k as [t|i t], k' as [t'|i' t']; try discriminate Hsame;
      destruct Ak as [_ Ak], Ak' as [Ak' _].
    + split.
      * rewrite Ak. exact IHi.
      * right. exact (flat_map_nonempty _ _ _ Hin Ak').
    + split.
      * right. exact (flat_map_nonempty _ _ _ Hin Ak').
      * rewrite Ak. exact IHo.
Qed.

Lemma fair_lossy (sched : Schedule) (header : string) :
  fair sched -> lossy funcTypes sched header.
Proof.
  intros Hfair. exists []. split; [|constructor].
  rewrite List.app_nil_r. apply Hfair.
Qed.

(** The parser on a header that splits in two, in a run that may lose
    appends: the verdict and the name are those of a run without loss, and
    each list is what such a run gives but for the appends lost, at least
    one append surviving in a list that lost some. *)
Lemma parse_split_lossy (sched : Schedule) (header : string) (c : ascii)
    (lhs rhs : string) :
  lossy funcTypes sched header ->
  index (cleanHeader header) (len (cleanHeader header) - 1) = Returns c ->
  (byteval c =? 59)%Z = false ->
  Split (cleanHeader header) "(" = [lhs; rhs] ->
  exists p lostIn lostOut,
    parseJavaFuncHeader sched header funcTypes = Returns p /\
    Permutation (flat_map (taskIn funcTypes) (headerTasks lhs rhs)) (p_in p ++ lostIn) /\
    Permutation (flat_map (taskOut funcTypes) (headerTasks lhs rhs)) (p_out p ++ lostOut) /\
    (lostIn = [] \/ p_in p <> []) /\ (lostOut = [] \/ p_out p <> []) /\
    p_ok p = negb (existsb (taskHalts funcTypes) (headerTasks lhs rhs)
                   || (length (leftTokens lhs) <=? 2)%nat) /\
    p_name p = if p_ok p then List.last (Split lhs " ") EmptyString else EmptyString.
Proof.
  intros (lost & Hperm & Hlost) Hi Hc Hs. unfold spawned in Hperm, Hlost.
  rewrite Hs in Hperm, Hlost.
  destruct (lost_effect _ _ Hlost) as (Lh & Li & Lo).
  unfold parseJavaFuncHeader. rewrite Hi. simpl obind. rewrite Hc, Hs.
  fold (headerTasks lhs rhs).
  destruct (runTasks_effect funcTypes (sched Task (headerTasks lhs rhs))
              (mkChecks [] [] false (paramTokens rhs))) as (Ei & Eo & Eh).
  simpl in Ei, Eo, Eh.
  assert (Hh : existsb (taskHalts funcTypes) (sched Task (headerTasks lhs rhs))
               = existsb (taskHalts funcTypes) (headerTasks lhs rhs)).
  { rewrite (existsb_perm _ _ _ Hperm), existsb_app, Lh, orb_false_r. reflexivity. }
  rewrite Hh in Eh.
  set (st := fold_left _ _ _) in *.
  assert (Pi : Permutation (flat_map (taskIn funcTypes) (headerTasks lhs rhs))
                 (c_in st ++ flat_map (taskIn funcTypes) lost)).
  { rewrite Ei, <- flat_map_app. apply Permutation_flat_map. exact Hperm. }
  assert (Po : Permutation (flat_map (taskOut funcTypes) (headerTasks lhs rhs))
                 (c_out st ++ flat_map (taskOut funcTypes) lost)).
  { rewrite Eo, <- flat_map_app. apply Permutation_flat_map. exact Hperm. }
  rewrite <- Ei in Li. rewrite <- Eo in Lo.
  rewrite Eh.
  destruct (existsb _ _ || _) eqn:E;
    eexists; exists (flat_map (taskIn funcTypes) lost),
                    (flat_map (taskOut funcTypes) lost);
    (split; [reflexivity|]); simpl; auto 10.
Qed.

End LossyRuns.

Lemma scenario_desired (t : string) :
  scenarioTypes !! t = Some true -> scenarioTypesWithModifiers !! t = Some true.
Proof.
  intros H. unfold scenarioTypesWithModifiers.
  destruct (decide (t = "public")) as [->|Hp]; [vm_compute in H; discriminate|].
  rewrite lookup_insert_ne by congruence.
  destruct (decide (t = "static")) as [->|Hs]; [vm_compute in H; discriminate|].
  rewrite lookup_insert_ne by congruence. exact H.
Qed.

Lemma lossy_scenario (sched : Schedule) (header : string) :
  lossy scenarioTypes sched header ->
  lossy scenarioTypesWithModifiers sched header.
Proof.
  intros (lost & Hperm & Hlost). exists lost. split; [exact Hperm|].
  eapply List.Forall_impl; [|exact Hlost].
  intros k (Hk & k' & Hin & Hsame & Hk').
  split; [apply scenario_desired; exact Hk|].
  exists k'. auto using scenario_desired.
Qed.

(** The lists of scenario A, from what a run without loss appends. *)
Lemma scenarioA_lists (ins outs lostIn lostOut : list string) :
  Permutation ["int"; "int"] (ins ++ lostIn) ->
  Permutation ["int"] (outs ++ lostOut) ->
  lostIn = [] \/ ins <> [] ->
  lostOut = [] \/ outs <> [] ->
  (ins = ["int"; "int"] \/ ins = ["int"]) /\ outs = ["int"].
Proof.
  intros Pi Po Li Lo.
  apply Permutation_length_1_inv in Po.
  assert (Pi' : ins ++ lostIn = ["int"; "int"]).
  { apply Permutation_length_2_inv in Pi. destruct Pi as [E|E]; exact E. }
  split.
  - destruct ins as [|a [|b [|c ins]]]; simpl in Pi'.
    + destruct Li as [->|Li]; [discriminate Pi'|congruence].
    + injection Pi' as -> _. right. reflexivity.
    + injection Pi' as -> -> _. left. reflexivity.
    + discriminate Pi'.
  - destruct outs as [|a [|b outs]]; simpl in Po.
    + destruct Lo as [->|Lo]; [discriminate Po|congruence].
    + injection Po as -> _. reflexivity.
    + discriminate Po.
Qed.

(** C2, amended: in every run of the checks of header A, appends lost to
    the race included, the header is rejected under the universe
    {int: true, String: true, float: false}, with the empty name, output
    types [int] and input types [int, int], or [int] when one of the two
    racing appends to the input list is lost; once [public] and [static]
    are keys of the universe (with value false), it is accepted with name
    [add] and the same lists.  In a run that loses no append the input
    types are [int, int]. *)
Theorem scenarioA_needs_modifiers (sched : Schedule) :
  lossy scenarioTypes sched scenarioA ->
  (exists p,
     parseJavaFuncHeader sched scenarioA scenarioTypes = Returns p /\
     p_ok p = false /\ p_name p = EmptyString /\
     (p_in p = ["int"; "int"] \/ p_in p = ["int"]) /\ p_out p = ["int"] /\
     (fair sched -> p_in p = ["int"; "int"])) /\
  (exists p,
     parseJavaFuncHeader sched scenarioA scenarioTypesWithModifiers = Returns p /\
     p_ok p = true /\ p_name p = "add" /\
     (p_in p = ["int"; "int"] \/ p_in p = ["int"]) /\ p_out p = ["int"] /\
     (fair sched -> p_in p = ["int"; "int"])).
Proof.
  intros Hl. destruct scenarioA_shape as (Hi & Hs & Ht).
  split.
  - destruct (parse_split_lossy scenarioTypes sched scenarioA _ _ _ Hl Hi eq_refl Hs)
      as ([name ins outs ok] & lostIn & lostOut & E & Pi & Po & Li & Lo & Hok & Hn).
    rewrite Ht in Pi, Po, Hok. simpl in Pi, Po, Li, Lo, Hok, Hn.
    vm_compute in Pi. vm_compute in Po. vm_compute in Hok.
    destruct (scenarioA_lists _ _ _ _ Pi Po Li Lo) as [Hin Hout].
    subst ok. simpl in Hn. subst name outs.
    eexists; split; [exact E|]. simpl.
    do 4 (split; [auto|]).
    intros Hfair.
    destruct (parse_split sched scenarioTypes scenarioA _ _ _ Hfair Hi eq_refl Hs)
      as (q & Eq & Qi & _).
    rewrite E in Eq. injection Eq as <-.
    rewrite Ht in Qi. vm_compute in Qi.
    apply Permutation_length_2_inv in Qi. destruct Qi as [Q|Q]; exact Q.
  - apply lossy_scenario in Hl.
    destruct (parse_split_lossy scenarioTypesWithModifiers sched scenarioA _ _ _
                Hl Hi eq_refl Hs)
      as ([name ins outs ok] & lostIn & lostOut & E & Pi & Po & Li & Lo & Hok & Hn).
    rewrite Ht in Pi, Po, Hok. simpl in Pi, Po, Li, Lo, Hok, Hn.
    vm_compute in Pi. vm_compute in Po. vm_compute in Hok.
    destruct (scenarioA_lists _ _ _ _ Pi Po Li Lo) as [Hin Hout].
    subst ok. simpl in Hn. subst name outs.
    eexists; split; [exact E|]. simpl.
    do 4 (split; [auto|]).
    intros Hfair.
    destruct (parse_split sched scenarioTypesWithModifiers scenarioA _ _ _
                Hfair Hi eq_refl Hs)
      as (q & Eq & Qi & _).
    rewrite E in Eq. injection Eq as <-.
    rewrite Ht in Qi. vm_compute in Qi.
    apply Permutation_length_2_inv in Qi. destruct Qi as [Q|Q]; exact Q.
Qed.

Lemma programOrder_fair : fair programOrder.
Proof. intros A l. apply Permutation_refl. Qed.

Lemma scenarioA_needs_modifiers_witness :
  (exists p,
     parseJavaFuncHeader dropsLast scenarioA scenarioTypes = Returns p /\
     p_ok p = false /\ p_name p = EmptyString /\
     (p_in p = ["int"; "int"] \/ p_in p = ["int"]) /\ p_out p = ["int"] /\
     (fair dropsLast -> p_in p = ["int"; "int"])) /\
  (exists p,
     parseJavaFuncHeader dropsLast scenarioA scenarioTypesWithModifiers = Returns p /\
     p_ok p = true /\ p_name p = "add" /\
     (p_in p = ["int"; "int"] \/ p_in p = ["int"]) /\ p_out p = ["int"] /\
     (fair dropsLast -> p_in p = ["int"; "int"])).
Proof.
  apply (scenarioA_needs_modifiers dropsLast).
  exists [CheckParam 2 "int"]. split.
  - vm_compute. apply Permutation_refl.
  - repeat constructor. exists (CheckParam 0 "int").
    split; [vm_compute; tauto|]. split; reflexivity.
Defined.

Lemma reverseOrder_fair : fair reverseOrder.
Proof. intros A l. apply Permutation_rev. Qed.

Lemma length_removelast {A : Type} (l : list A) :
  length (removelast l) = (length l - 1)%nat.
Proof.
  induction l as [|x [|y l] IH]; try reflexivity.
  change (removelast (x :: y :: l)) with (x :: removelast (y :: l)).
  simpl length in *. rewrite IH. lia.
Qed.

(** C6: if a declared type of a header (a token before the function name,
    or an even-indexed token of the parameter list, as it is looked up) is
    not a key of the universe, the parser returns with accepted = false,
    whatever the other types are and whatever order the checks ran in. *)
Theorem unknown_type_rejects (sched : Schedule) (header : string)
    (funcTypes : gmap string bool) (t : string) :
  fair sched ->
  declaredType header t ->
  funcTypes !! t = None ->
  exists p, parseJavaFuncHeader sched header funcTypes = Returns p /\ p_ok p = false.
Proof.
  intros Hfair (lhs & rhs & Hs & Ht) Habs.
  destruct (index_last _ (split_pair_nonempty _ _ _ Hs)) as [c Hi].
  destruct (byteval c =? 59)%Z eqn:Hc.
  { eexists; split; [apply (parse_terminator _ _ _ _ Hi Hc)|reflexivity]. }
  destruct (parse_split sched funcTypes header c lhs rhs Hfair Hi Hc Hs)
    as (p & Hp & _ & _ & Hok & _).
  exists p; split; [exact Hp|]. rewrite Hok.
  destruct (length (leftTokens lhs) <=? 2)%nat eqn:Hlen;
    [rewrite orb_true_r; reflexivity|].
  rewrite orb_false_r. apply negb_false_iff.
  apply Nat.leb_gt in Hlen.
  destruct Ht as [(tok & Hin & ->)|(i & tok & He & Hl & ->)].
  - apply (halts_in funcTypes _ (CheckReturn tok)); [|exact Habs].
    unfold headerTasks, returnTasks. apply in_or_app; left.
    destruct (Nat.ltb_spec 2 (length (leftTokens lhs))); [|lia].
    apply in_map. exact Hin.
  - apply (halts_in funcTypes _ (CheckParam i tok)); [|exact Habs].
    unfold headerTasks. apply in_or_app; right.
    apply (paramTasks_lookup _ i 0 tok Hl He).
Qed.

Lemma unknown_type_rejects_witness :
  exists p, parseJavaFuncHeader reverseOrder scenarioD scenarioTypesWithModifiers
            = Returns p /\ p_ok p = false.
Proof.
  apply (unknown_type_rejects reverseOrder scenarioD scenarioTypesWithModifiers "Unknown").
  - intros A l. apply Permutation_rev.
  - exists "public static Unknown weird", "int a) {".
    split; [vm_compute; reflexivity|].
    left. exists "Unknown". split; [vm_compute; tauto|vm_compute; reflexivity].
  - vm_compute. reflexivity.
Defined.

(** C7 (the code differs): the count check is made after the name has been
    taken off the token list, so a left segment of three tokens or fewer
    (name included) is rejected; four are needed. *)
Theorem three_tokens_rejected (sched : Schedule) (header : string)
    (funcTypes : gmap string bool) (lhs rhs : string) :
  Split (cleanHeader header) "(" = [lhs; rhs] ->
  (length (Split lhs " ") <= 3)%nat ->
  exists p, parseJavaFuncHeader sched header funcTypes = Returns p /\ p_ok p = false.
Proof.
  intros Hs Hlen.
  destruct (index_last _ (split_pair_nonempty _ _ _ Hs)) as [c Hi].
  destruct (byteval c =? 59)%Z eqn:Hc.
  { eexists; split; [apply (parse_terminator _ _ _ _ Hi Hc)|reflexivity]. }
  unfold parseJavaFuncHeader. rewrite Hi. simpl obind. rewrite Hc, Hs.
  assert (Hle : (length (leftTokens lhs) <=? 2)%nat = true).
  { apply Nat.leb_le. unfold leftTokens. rewrite length_removelast. lia. }
  rewrite Hle, orb_true_r. eexists; split; reflexivity.
Qed.

Lemma three_tokens_rejected_witness :
  length (Split "public int add" " ") = 3%nat /\
  exists p, parseJavaFuncHeader programOrder threeTokenHeader scenarioTypesWithModifiers
            = Returns p /\ p_ok p = false.
Proof.
  split; [reflexivity|].
  apply (three_tokens_rejected programOrder threeTokenHeader scenarioTypesWithModifiers
           "public int add" "int a) {").
  - vm_compute. reflexivity.
  - vm_compute. lia.
Defined.

(** The same header with one more modifier passes the count check and is
    accepted: every type of [threeTokenHeader] is known, only the count
    rejects it. *)
Lemma four_tokens_accepted :
  parseJavaFuncHeader programOrder "public static int add(int a) {"
    scenarioTypesWithModifiers
  = Returns (mkParsed "add" ["int"] ["int"] true).
Proof. vm_compute. reflexivity. Qed.

(** C9: under a universe that does not have the empty string as a key,
    every header with an empty parameter list is rejected: the parameter
    text splits into the single token [""], which is checked as the type at
    index 0 and is unknown. *)
Theorem empty_parameter_list_rejected (sched : Schedule) (header : string)
    (funcTypes : gmap string bool) (l r : string) :
  fair sched ->
  funcTypes !! EmptyString = None ->
  cleanHeader header = l +:+ "()" +:+ r ->
  exists p, parseJavaFuncHeader sched header funcTypes = Returns p /\ p_ok p = false.
Proof.
  intros Hfair Habs Hh.
  assert (Hne : cleanHeader header <> EmptyString).
  { rewrite Hh. destruct l; discriminate. }
  destruct (index_last _ Hne) as [c Hi].
  destruct (byteval c =? 59)%Z eqn:Hc.
  { eexists; split; [apply (parse_terminator _ _ _ _ Hi Hc)|reflexivity]. }
  assert (Hsp : Split (cleanHeader header) "("
                = Split l "(" ++ Split (String ")" r) "(").
  { rewrite Hh. apply (Split_byte_app "(" l (String ")" r)). }
  destruct (Split l "(") as [|a [|a' la]] eqn:El;
    [exfalso; exact (Split_nonempty _ _ El)| |].
  2:{ eexists; split; [apply (parse_no_split _ _ _ _ Hi Hc)|reflexivity].
      rewrite Hsp. rewrite List.length_app.
      pose proof (Split_nonempty (String ")" r) "(").
      destruct (Split (String ")" r) "("); [congruence|simpl; lia]. }
  destruct (Split (String ")" r) "(") as [|b [|b' lb]] eqn:Er;
    [exfalso; exact (Split_nonempty _ _ Er)| |].
  2:{ eexists; split; [apply (parse_no_split _ _ _ _ Hi Hc)|reflexivity].
      rewrite Hsp. simpl. lia. }
  apply Split_byte_single in Er. subst b. simpl in Hsp.
  destruct (parse_split sched funcTypes header c a (String ")" r) Hfair Hi Hc Hsp)
    as (p & Hp & _ & _ & Hok & _).
  exists p; split; [exact Hp|]. rewrite Hok.
  assert (Hk : In (CheckParam 0 EmptyString) (headerTasks a (String ")" r))).
  { unfold headerTasks. apply in_or_app; right.
    unfold paramTokens, Split0. rewrite Split_byte_cons. simpl. left; reflexivity. }
  rewrite (halts_in funcTypes _ _ Hk); [reflexivity|].
  exact Habs.
Qed.

Lemma empty_parameter_list_rejected_witness :
  exists p, parseJavaFuncHeader reverseOrder "public static int now() {"
              scenarioTypesWithModifiers = Returns p /\ p_ok p = false.
Proof.
  apply (empty_parameter_list_rejected reverseOrder "public static int now() {"
           scenarioTypesWithModifiers "public static int now" " {").
  - intros A l. apply Permutation_rev.
  - vm_compute. reflexivity.
  - vm_compute. reflexivity.
Defined.

(** C10: a raw header that is not empty but whose text before the first
    [//] trims to nothing (white space only, or a comment only) makes the
    parser panic on [header[len(header)-1]]; and the parser panics on no
    other header, so it is total exactly on the headers with content that
    is neither comment nor white space. *)
Theorem blank_header_panics (sched : Schedule) (header : string)
    (funcTypes : gmap string bool) :
  header <> EmptyString ->
  cleanHeader header = EmptyString ->
  parseJavaFuncHeader sched header funcTypes = Panics /\
  (forall h : string,
     cleanHeader h <> EmptyString ->
     exists p, parseJavaFuncHeader sched h funcTypes = Returns p).
Proof.
  intros _ Hc. split; [apply parse_empty; exact Hc|].
  intros h Hh. apply parse_total. exact Hh.
Qed.

Lemma blank_header_panics_witness :
  parseJavaFuncHeader programOrder "   // helper" scenarioTypes = Panics /\
  parseJavaFuncHeader programOrder (" " +:+ tab +:+ nl) scenarioTypes = Panics.
Proof.
  split.
  - apply (blank_header_panics programOrder "   // helper" scenarioTypes).
    + discriminate.
    + vm_compute. reflexivity.
  - apply (blank_header_panics programOrder (" " +:+ tab +:+ nl) scenarioTypes).
    + discriminate.
    + vm_compute. reflexivity.
Defined.

(** ** The brace balancer *)

Section Balancer.

Lemma len_cons (a : ascii) (s : string) : len (String a s) = (len s + 1)%Z.
Proof. unfold len. simpl String.length. lia. Qed.

Lemma len_nonneg (s : string) : (0 <= len s)%Z.
Proof. unfold len. lia. Qed.

Lemma len_append (p s : string) : len (p +:+ s) = (len p + len s)%Z.
Proof. unfold len. rewrite length_append. lia. Qed.

Lemma dropn_len (p s : string) : dropn (Z.to_nat (len p)) (p +:+ s) = s.
Proof. unfold len. rewrite Nat2Z.id. apply dropn_app. Qed.

Lemma findOpen_first (g rest : string) (m : Z) :
  noOpen g = true ->
  findOpen (g +:+ String "{" rest) m = Some (m + len g + 1)%Z.
Proof.
  revert m; induction g as [|a g IH]; intros m Hg.
  - rewrite app_empty. simpl. f_equal. unfold len. simpl. lia.
  - rewrite app_cons. simpl in Hg. apply andb_prop in Hg as [Ha Hg].
    simpl. apply negb_true_iff in Ha. rewrite Ha.
    rewrite IH by exact Hg. rewrite len_cons. f_equal. lia.
Qed.

Lemma findOpen_none (g : string) (m : Z) :
  noOpen g = true -> findOpen g m = None.
Proof.
  revert m; induction g as [|a g IH]; intros m Hg; [reflexivity|].
  simpl in Hg. apply andb_prop in Hg as [Ha Hg].
  simpl. apply negb_true_iff in Ha. rewrite Ha. apply IH. exact Hg.
Qed.

Lemma matchBraces_other (c : ascii) (rest : string) (m count : Z) :
  byteval c <> 123%Z -> byteval c <> 125%Z -> count <> 0%Z ->
  matchBraces (String c rest) m count = matchBraces rest (m + 1) count.
Proof.
  intros H1 H2 H3. simpl.
  destruct (Z.eqb_spec (byteval c) 123); [contradiction|].
  destruct (Z.eqb_spec (byteval c) 125); [contradiction|].
  destruct (Z.eqb_spec count 0); [contradiction|reflexivity].
Qed.

Lemma matchBraces_open (rest : string) (m count : Z) :
  (1 <= count)%Z ->
  matchBraces (String "{" rest) m count = matchBraces rest (m + 1) (count + 1).
Proof.
  intros H. simpl. change (byteval "{") with 123%Z. simpl.
  destruct (Z.eqb_spec (count + 1) 0); [lia|reflexivity].
Qed.

Lemma matchBraces_close (rest : string) (m count : Z) :
  (2 <= count)%Z ->
  matchBraces (String "}" rest) m count = matchBraces rest (m + 1) (count - 1).
Proof.
  intros H. simpl. change (byteval "}") with 125%Z. simpl.
  destruct (Z.eqb_spec (count - 1) 0); [lia|reflexivity].
Qed.

Lemma matchBraces_done (rest : string) (m : Z) :
  matchBraces (String "}" rest) m 1 = (m, 0%Z).
Proof. reflexivity. Qed.

(** Balanced text leaves the depth counter where it was. *)
Lemma matchBraces_balanced (s : string) :
  balanced s ->
  forall (rest : string) (m count : Z), (1 <= count)%Z ->
    matchBraces (s +:+ rest) m count = matchBraces rest (m + len s) count.
Proof.
  induction 1 as [|c s H1 H2 Hs IH|s t Hs IHs Ht IHt]; intros rest m count Hc.
  - rewrite app_empty. f_equal. unfold len. simpl. lia.
  - rewrite app_cons, matchBraces_other by (auto; lia).
    rewrite IH by exact Hc. rewrite len_cons. f_equal. lia.
  - rewrite !app_assoc_s. rewrite !app_cons, !app_empty.
    rewrite matchBraces_open by exact Hc.
    rewrite IHs by lia.
    rewrite matchBraces_close by lia.
    rewrite IHt by lia. f_equal; [|lia].
    rewrite len_cons, len_append, len_cons. lia.
Qed.

Lemma Join_cons_byte (a : ascii) (p : string) (rest : list string) :
  Join (String a p :: rest) EmptyString = String a (Join (p :: rest) EmptyString).
Proof. destruct rest; reflexivity. Qed.

Lemma Join_empty_head (l : list string) :
  l <> [] -> Join (EmptyString :: l) EmptyString = Join l EmptyString.
Proof. destruct l; [congruence|reflexivity]. Qed.

(** Replacing a byte by nothing is leaving it out. *)
Lemma ReplaceAll_byte (c : ascii) (s : string) :
  ReplaceAll s (String c EmptyString) EmptyString
  = (fix drop (s : string) : string :=
       match s with
       | EmptyString => EmptyString
       | String a s' => if Ascii.eqb c a then drop s' else String a (drop s')
       end) s.
Proof.
  unfold ReplaceAll. induction s as [|a s IH]; [reflexivity|].
  rewrite Split_byte_cons. destruct (Ascii.eqb c a).
  - rewrite Join_empty_head by apply Split_nonempty. exact IH.
  - destruct (Split s (String c EmptyString)) as [|p q] eqn:E.
    + exfalso; exact (Split_nonempty _ _ E).
    + rewrite Join_cons_byte. f_equal. exact IH.
Qed.

Lemma eqb_byteval (n : N) (a : ascii) :
  (n < 256)%N -> Ascii.eqb (byte n) a = (byteval a =? Z.of_N n)%Z.
Proof.
  intros Hn. unfold byte, byteval.
  destruct (Ascii.eqb_spec (ascii_of_N n) a) as [<-|Hne].
  - rewrite N_ascii_embedding by exact Hn. symmetry. apply Z.eqb_refl.
  - symmetry. apply Z.eqb_neq. intros He. apply Hne.
    apply N2Z.inj in He. rewrite <- He. apply ascii_N_embedding.
Qed.

(** [oneLine] is the removal of the newline and tab bytes. *)
Lemma oneLine_withoutBreaks (s : string) : oneLine s = withoutBreaks s.
Proof.
  unfold oneLine, nl, tab. change (bytes [10%N]) with (String (byte 10) EmptyString).
  change (bytes [9%N]) with (String (byte 9) EmptyString).
  rewrite (ReplaceAll_byte (byte 10) s).
  induction s as [|a s IH]; [reflexivity|].
  simpl withoutBreaks. rewrite (eqb_byteval 10 a) by reflexivity.
  change (Z.of_N 10) with 10%Z.
  destruct (byteval a =? 10)%Z eqn:E10; simpl orb.
  - exact IH.
  - rewrite (ReplaceAll_byte (byte 9)) in *.
    rewrite (eqb_byteval 9 a) by reflexivity. change (Z.of_N 9) with 9%Z.
    destruct (byteval a =? 9)%Z; [exact IH|f_equal; exact IH].
Qed.

Lemma withoutBreaks_brace (g rest : string) :
  withoutBreaks (g +:+ String "{" rest) <> EmptyString.
Proof.
  induction g as [|a g IH].
  - rewrite app_empty. discriminate.
  - rewrite app_cons. simpl. destruct (_ || _); [exact IH|discriminate].
Qed.

End Balancer.

Lemma app_empty_r (s : string) : s +:+ EmptyString = s.
Proof.
  induction s as [|a s IH]; [reflexivity|]. rewrite app_cons. f_equal. exact IH.
Qed.

Lemma slice_middle (p x s : string) :
  slice (p +:+ x +:+ s) (len p) (len p + len x) = Returns x.
Proof.
  unfold slice. rewrite !len_append.
  pose proof (len_nonneg p). pose proof (len_nonneg x). pose proof (len_nonneg s).
  destruct (Z.leb_spec 0 (len p)); [|lia].
  destruct (Z.leb_spec (len p) (len p + len x)); [|lia].
  destruct (Z.leb_spec (len p + len x) (len p + (len x + len s))); [|lia].
  simpl andb. cbv iota. f_equal.
  replace (len p + len x - len p)%Z with (len x) by lia.
  unfold len. rewrite !Nat2Z.id. apply substring_middle.
Qed.

(** [balance] from an offset with no opening brace before the first one of
    the text that follows: the two loops, then the slice. *)
Lemma balance_unfold (p g tail : string) :
  noOpen g = true ->
  balance (p +:+ g +:+ String "{" tail) (len p) =
    let '(m2, count) := matchBraces tail (len p + len g + 1) 1 in
    if negb (count =? 0)%Z then Returns EmptyString
    else do body <- slice (p +:+ g +:+ String "{" tail) (len p) (m2 + 1);
         Returns (oneLine body).
Proof.
  intros Hg. unfold balance.
  pose proof (len_nonneg p). pose proof (len_nonneg g).
  destruct (Z.ltb_spec (len p) 0); [lia|].
  rewrite dropn_len, findOpen_first by exact Hg.
  replace (p +:+ g +:+ String "{" tail)
    with ((p +:+ g +:+ String "{" EmptyString) +:+ tail) at 1
    by (rewrite !app_assoc_s, app_cons, app_empty; reflexivity).
  replace (len p + len g + 1)%Z with (len (p +:+ g +:+ String "{" EmptyString))
    by (rewrite !len_append, len_cons; unfold len; simpl; lia).
  rewrite dropn_len. reflexivity.
Qed.

(** C5, amended: from an offset [k] with no opening brace between [k] and
    the first brace of a well-formed block, [balance] returns the text from
    [k] to the closing brace of the block, newlines and tabs removed (the
    block alone when [k] is at its brace), which is not empty, whatever
    follows the block, an extra closing brace included; when the closing
    brace of the block is missing up to the end of the buffer, it returns
    the empty string. *)
Theorem balance_from_offset (p g body rest : string) :
  noOpen g = true ->
  balanced body ->
  balance (p +:+ g +:+ "{" +:+ body +:+ "}" +:+ rest) (len p)
    = Returns (withoutBreaks (g +:+ "{" +:+ body +:+ "}")) /\
  withoutBreaks (g +:+ "{" +:+ body +:+ "}") <> EmptyString /\
  balance (p +:+ g +:+ "{" +:+ body) (len p) = Returns EmptyString.
Proof.
  intros Hg Hb.
  change ("{" +:+ body +:+ "}" +:+ rest) with (String "{" (body +:+ String "}" rest)).
  change ("{" +:+ body +:+ "}") with (String "{" (body +:+ String "}" EmptyString)).
  change ("{" +:+ body) with (String "{" body).
  split; [|split].
  - rewrite balance_unfold by exact Hg.
    rewrite matchBraces_balanced by (exact Hb || lia).
    rewrite matchBraces_done. simpl negb. cbv iota.
    replace (p +:+ g +:+ String "{" (body +:+ String "}" rest))
      with (p +:+ (g +:+ String "{" (body +:+ String "}" EmptyString)) +:+ rest).
    2:{ f_equal. rewrite app_assoc_s, !app_cons. do 2 f_equal.
        rewrite app_assoc_s, app_cons, app_empty. reflexivity. }
    replace (len p + len g + 1 + len body + 1)%Z
      with (len p + len (g +:+ String "{" (body +:+ String "}" EmptyString)))%Z.
    2:{ rewrite len_append, len_cons, len_append, len_cons. unfold len at 4. simpl. lia. }
    rewrite slice_middle. simpl obind. rewrite oneLine_withoutBreaks. reflexivity.
  - apply withoutBreaks_brace.
  - rewrite balance_unfold by exact Hg.
    rewrite <- (app_empty_r body) at 1.
    rewrite matchBraces_balanced by (exact Hb || lia).
    reflexivity.
Qed.

Lemma balance_from_offset_witness :
  balance ("int x; void f(int a) { if (a) { g(); } } }") (len "int x; ")
    = Returns (withoutBreaks ("void f(int a) " +:+ "{" +:+ " if (a) { g(); } " +:+ "}")) /\
  withoutBreaks ("void f(int a) " +:+ "{" +:+ " if (a) { g(); } " +:+ "}") <> EmptyString /\
  balance ("int x; void f(int a) { if (a) { g(); } ") (len "int x; ") = Returns EmptyString.
Proof.
  apply (balance_from_offset "int x; " "void f(int a) " " if (a) { g(); } " " }").
  - reflexivity.
  - repeat (apply bal_other; [discriminate|discriminate|]).
    apply (bal_nest " g(); " " ").
    + repeat (apply bal_other; [discriminate|discriminate|]). apply bal_empty.
    + repeat (apply bal_other; [discriminate|discriminate|]). apply bal_empty.
Defined.

(** C5, as the spec has it, fails twice: from an offset before the block
    the text returned starts at the offset, not at the block; and a block
    followed by an extra closing brace is returned, not refused. *)
Lemma balance_not_the_block_alone :
  (balance "f(){ }" 0 = Returns "f(){ }" /\
   balance "f(){ }" 0 <> Returns (withoutBreaks "{ }")) /\
  (balance "{ }}" 0 = Returns "{ }" /\
   balance "{ }}" 0 <> Returns EmptyString).
Proof.
  assert (E1 : balance "f(){ }" 0 = Returns "f(){ }") by (vm_compute; reflexivity).
  assert (E2 : balance "{ }}" 0 = Returns "{ }") by (vm_compute; reflexivity).
  rewrite E1, E2. repeat split; discriminate.
Qed.

(** A negative offset makes [balance] panic. *)
Lemma balance_negative (arr : string) (m : Z) :
  (m < 0)%Z -> balance arr m = Panics.
Proof.
  intros Hm. unfold balance. destruct (Z.ltb_spec m 0); [reflexivity|lia].
Qed.

(** From an offset at or after which there is no opening brace, [balance]
    returns the empty string. *)
Lemma balance_no_brace (p g : string) :
  noOpen g = true -> balance (p +:+ g) (len p) = Returns EmptyString.
Proof.
  intros Hg. unfold balance. pose proof (len_nonneg p).
  destruct (Z.ltb_spec (len p) 0); [lia|].
  rewrite dropn_len, findOpen_none by exact Hg. reflexivity.
Qed.

(** ** Source extraction and the aggregator *)

(** Once the list is shorter than the index the loop still has to reach,
    the loop cannot return: [funcLen] is not adjusted after a removal. *)
Lemma extractLoop_short (content : string) (n fi : nat) (funcs : list Function) :
  (length funcs < fi + n)%nat -> (0 < n)%nat ->
  forall r, extractLoop content n fi funcs <> Returns r.
Proof.
  revert fi funcs; induction n as [|n IH]; intros fi funcs Hlen Hn r; [lia|].
  simpl. destruct (funcs !! fi) as [fn|] eqn:El; [|discriminate].
  apply lookup_lt_Some in El.
  destruct (len (fn_Header fn) =? 0)%Z; [discriminate|].
  destruct (balance content _) as [src| |]; simpl obind; try discriminate.
  assert (Hn' : (0 < n)%nat) by lia.
  destruct (0 <? len src)%Z.
  - apply IH; [rewrite length_insert; lia|exact Hn'].
  - apply IH; [|exact Hn'].
    rewrite List.length_app, length_take, length_drop. lia.
Qed.

(** C3 (the code differs): when extraction fails for a Function that is not
    the last of the list, [extractFuncSrc] does not return at all: the entry
    is removed, the index still advances and the loop bound is the old
    length, so a later [f.Funcs[fi]] is out of range. *)
Theorem drop_before_last_crashes (content : string) (file : File)
    (fn : Function) (rest : list Function) :
  f_Funcs file = fn :: rest ->
  rest <> [] ->
  fn_Header fn <> EmptyString ->
  balance content (Index content (fn_Header fn)) = Returns EmptyString ->
  forall file', extractFuncSrc (Some content) file <> Returns file'.
Proof.
  intros Hf Hrest Hh Hb file'. unfold extractFuncSrc. rewrite Hf.
  simpl length. simpl extractLoop.
  destruct (fn_Header fn) as [|a h] eqn:Eh; [congruence|].
  rewrite len_cons. pose proof (len_nonneg h).
  destruct (Z.eqb_spec (len h + 1) 0); [lia|].
  rewrite Hb. simpl obind. change (0 <? len EmptyString)%Z with false. cbv iota.
  change (drop 0 rest) with rest.
  destruct (extractLoop content (length rest) 1 rest) as [r| |] eqn:E;
    simpl obind; try discriminate.
  exfalso. destruct rest as [|x rest]; [congruence|].
  apply (extractLoop_short content (length (x :: rest)) 1 (x :: rest)) in E;
    [exact E|simpl; lia|simpl; lia].
Qed.

Lemma drop_before_last_crashes_witness :
  funcHeaders (envOf [headerF; headerG] truncatedF) programOrder "A.java"
    scenarioTypesWithModifiers = Returns [functionF; functionG] /\
  balance truncatedF (Index truncatedF (fn_Header functionG))
    = Returns "public static int g(int b) { return b; }" /\
  forall file',
    extractFuncSrc (Some truncatedF) (mkFile (hash "A.java") "A.java" "A.java"
                                        [functionF; functionG])
    <> Returns file'.
Proof.
  split; [vm_compute; reflexivity|].
  split; [vm_compute; reflexivity|].
  apply (drop_before_last_crashes truncatedF _ functionF [functionG]).
  - reflexivity.
  - discriminate.
  - discriminate.
  - vm_compute. reflexivity.
Defined.

(** The run of [ParseFile] on that file: the process panics. *)
Lemma truncated_first_function_panics :
  ParseFile (envOf [headerF; headerG] truncatedF) programOrder "A.java"
    scenarioTypesWithModifiers = Panics.
Proof. vm_compute. reflexivity. Qed.

(** With the two headers found in the other order, the failing Function is
    the last one: it is removed and the other is kept with its source. *)
Lemma truncated_last_function_dropped :
  ParseFile (envOf [headerF; headerG] truncatedF) reverseOrder "A.java"
    scenarioTypesWithModifiers
  = Returns (mkFile (hash "A.java") "A.java" "A.java"
               [setSource functionG "public static int g(int b) { return b; }"],
             true).
Proof. vm_compute. reflexivity. Qed.

(** C4 (the code differs): when the header text of a Function does not occur
    in the content of the file, [strings.Index] gives -1, [balance] indexes
    the buffer at -1, and the process panics. *)
Theorem missing_header_panics :
  funcHeaders (envOf [scenarioA] respaced) programOrder "Calc.java"
    scenarioTypesWithModifiers
  = Returns [mkFunction (hash ("add" +:+ scenarioA)) "add"
               "public static int add(int a, int b)" ["int"; "int"] ["int"] EmptyString] /\
  Index respaced "public static int add(int a, int b)" = (-1)%Z /\
  balance respaced (-1) = Panics /\
  ParseFile (envOf [scenarioA] respaced) programOrder "Calc.java"
    scenarioTypesWithModifiers = Panics.
Proof. vm_compute. auto. Qed.

(** A header that is empty makes [extractFuncSrc] end the process through
    [log.Fatal]. *)
Lemma empty_header_fatal (content : string) (file : File) (fn : Function)
    (rest : list Function) :
  f_Funcs file = fn :: rest -> fn_Header fn = EmptyString ->
  extractFuncSrc (Some content) file = Fatal.
Proof.
  intros Hf Hh. unfold extractFuncSrc. rewrite Hf. simpl. rewrite Hh. reflexivity.
Qed.

(** C8: [ParseFile] answers by the Functions that survived header filtering:
    with none, it returns the zero File and ok = false; with at least one,
    it goes on to source extraction and, when that returns, returns the
    File with ok = true; so ok = true is returned only when a Function
    survived. *)
Theorem ParseFile_needs_survivor (env : Env) (sched : Schedule) (path : string)
    (funcTypes : gmap string bool) (fns : list Function) :
  funcHeaders env sched path funcTypes = Returns fns ->
  (fns = [] -> ParseFile env sched path funcTypes = Returns (zeroFile, false)) /\
  (fns <> [] ->
     ParseFile env sched path funcTypes
     = do file <- extractFuncSrc (readFile env path)
                    (mkFile (hash path) (List.last (Split path "/") EmptyString) path fns);
       Returns (file, true)) /\
  (forall file ok,
     ParseFile env sched path funcTypes = Returns (file, ok) ->
     (ok = true -> fns <> []) /\ (ok = false -> file = zeroFile /\ fns = [])).
Proof.
  intros Hf. unfold ParseFile. rewrite Hf. simpl obind.
  destruct fns as [|fn fns]; simpl length; simpl Nat.ltb; cbv iota.
  - split; [reflexivity|]. split; [congruence|].
    intros file ok H. injection H as <- <-. split; [discriminate|auto].
  - split; [discriminate|]. split; [reflexivity|].
    intros file ok H.
    destruct (extractFuncSrc _ _) as [f'| |]; simpl obind in H; try discriminate.
    injection H as <- <-. split; [discriminate|discriminate].
Qed.

Lemma ParseFile_needs_survivor_witness :
  ParseFile (envOf ["public float scale(int a) {"; "void helper();"] EmptyString)
    programOrder "src/Calc.java" scenarioTypesWithModifiers
  = Returns (zeroFile, false).
Proof.
  apply (ParseFile_needs_survivor
           (envOf ["public float scale(int a) {"; "void helper();"] EmptyString)
           programOrder "src/Calc.java" scenarioTypesWithModifiers []).
  - vm_compute. reflexivity.
  - reflexivity.
Defined.

(** Scenario E: the only candidate has unbalanced braces; it is removed and
    the File is returned with no Function. *)
Lemma truncated_only_function :
  ParseFile (envOf [headerF] "public static int f(int a) { if (a > 0) {")
    programOrder "src/A.java" scenarioTypesWithModifiers
  = Returns (mkFile (hash "src/A.java") "A.java" "src/A.java" [], true).
Proof. vm_compute. reflexivity. Qed.

(** * Further properties *)

(** ** The brace balancer on an arbitrary buffer *)

Ltac norm_app :=
  repeat (rewrite app_assoc_s || rewrite app_cons || rewrite app_empty).

Section BalancerGeneral.

Lemma byteval_inj (a b : ascii) : byteval a = byteval b -> a = b.
Proof.
  unfold byteval. intros H. apply N2Z.inj in H.
  rewrite <- (ascii_N_embedding a), <- (ascii_N_embedding b), H. reflexivity.
Qed.

Lemma findOpen_inv (s : string) (m m1 : Z) :
  findOpen s m = Some m1 ->
  exists g tail, s = g +:+ String "{" tail /\ noOpen g = true /\
                 m1 = (m + len g + 1)%Z.
Proof.
  revert m; induction s as [|b s IH]; intros m H; [discriminate|].
  simpl in H. destruct (Z.eqb_spec (byteval b) 123) as [Hb|Hb].
  - injection H as <-. exists EmptyString, s.
    assert (b = "{"%char) as -> by (apply byteval_inj; exact Hb).
    split; [reflexivity|]. split; [reflexivity|]. unfold len. simpl. lia.
  - apply IH in H as (g & tail & -> & Hg & ->).
    exists (String b g), tail. split; [reflexivity|]. split.
    + simpl. rewrite Hg. destruct (Z.eqb_spec (byteval b) 123); [contradiction|reflexivity].
    + rewrite len_cons. lia.
Qed.

(** Where the second loop stops with a depth of zero, the text before that
    point closes the braces open so far. *)
Lemma matchBraces_unwinds (s : string) :
  forall (n : nat) (m m2 count : Z),
    count = Z.of_nat (S n) ->
    matchBraces s m count = (m2, 0%Z) ->
    exists pre tail, s = pre +:+ tail /\ unwinds (S n) pre /\
                     m2 = (m + len pre - 1)%Z.
Proof.
  induction s as [|b s IH]; intros n m m2 count Hc H.
  - simpl in H. injection H as _ H. lia.
  - destruct (Z.eq_dec (byteval b) 123%Z) as [Hb|Hb];
      [|destruct (Z.eq_dec (byteval b) 125%Z) as [Hb'|Hb']].
    + assert (b = "{"%char) as -> by (apply byteval_inj; exact Hb).
      rewrite matchBraces_open in H by lia.
      apply (IH (S n)) in H as (pre & tail & -> & Hu & ->); [|lia].
      inversion Hu as [|k w1 s1 Hw1 Hu1]; subst.
      inversion Hu1 as [|k w2 s2 Hw2 Hu2]; subst.
      exists (("{" +:+ w1 +:+ "}" +:+ w2) +:+ String "}" s2), tail.
      split; [|split].
      * norm_app. reflexivity.
      * apply unwinds_S; [apply bal_nest; assumption|exact Hu2].
      * norm_app. repeat (rewrite len_append || rewrite len_cons). lia.
    + assert (b = "}"%char) as -> by (apply byteval_inj; exact Hb').
      destruct n as [|n].
      * subst count. rewrite matchBraces_done in H. injection H as <-.
        exists (EmptyString +:+ String "}" EmptyString), s.
        split; [reflexivity|]. split.
        -- apply unwinds_S; [apply bal_empty|apply unwinds_O].
        -- unfold len. simpl. lia.
      * rewrite matchBraces_close in H by lia.
        apply (IH n) in H as (pre & tail & -> & Hu & ->); [|lia].
        exists (EmptyString +:+ String "}" pre), tail.
        split; [reflexivity|]. split.
        -- apply unwinds_S; [apply bal_empty|exact Hu].
        -- rewrite app_empty, len_cons. lia.
    + rewrite matchBraces_other in H by (auto; lia).
      apply (IH n) in H as (pre & tail & -> & Hu & ->); [|exact Hc].
      inversion Hu as [|k w s1 Hw Hu1]; subst.
      exists (String b w +:+ String "}" s1), tail.
      split; [|split].
      * norm_app. reflexivity.
      * apply unwinds_S; [apply bal_other; assumption|exact Hu1].
      * norm_app. repeat (rewrite len_append || rewrite len_cons). lia.
Qed.

(** A buffer is its first [n] bytes followed by the rest. *)
Lemma split_at (n : nat) (s : string) :
  dropn n s <> EmptyString ->
  exists p, s = p +:+ dropn n s /\ String.length p = n.
Proof.
  revert s; induction n as [|n IH]; intros s H.
  - exists EmptyString. split; reflexivity.
  - destruct s as [|a s]; [simpl in H; congruence|]. simpl in H.
    destruct (IH s H) as (p & Hp & Hl).
    exists (String a p). split; [|simpl; congruence].
    rewrite app_cons. simpl dropn. f_equal. exact Hp.
Qed.

(** Success on a well-formed block, from the offset before it. *)
Lemma balance_block (p g body rest : string) :
  noOpen g = true -> balanced body ->
  balance (p +:+ g +:+ String "{" (body +:+ String "}" rest)) (len p)
    = Returns (withoutBreaks (g +:+ String "{" (body +:+ String "}" EmptyString))).
Proof.
  intros Hg Hb. rewrite balance_unfold by exact Hg.
  rewrite matchBraces_balanced by (exact Hb || lia).
  rewrite matchBraces_done. simpl negb. cbv iota.
  replace (p +:+ g +:+ String "{" (body +:+ String "}" rest))
    with (p +:+ (g +:+ String "{" (body +:+ String "}" EmptyString)) +:+ rest).
  2:{ f_equal. rewrite app_assoc_s, !app_cons. do 2 f_equal.
      rewrite app_assoc_s, app_cons, app_empty. reflexivity. }
  replace (len p + len g + 1 + len body + 1)%Z
    with (len p + len (g +:+ String "{" (body +:+ String "}" EmptyString)))%Z.
  2:{ rewrite len_append, len_cons, len_append, len_cons. unfold len at 4. simpl. lia. }
  rewrite slice_middle. simpl obind. rewrite oneLine_withoutBreaks. reflexivity.
Qed.

(** From an offset that is not negative, [balance] returns the empty string
    or the text up to the end of a well-formed block. *)
Lemma balance_cases (arr : string) (m : Z) :
  (0 <= m)%Z ->
  balance arr m = Returns EmptyString \/
  exists g body tail,
    dropn (Z.to_nat m) arr = g +:+ String "{" (body +:+ String "}" tail) /\
    noOpen g = true /\ balanced body /\
    balance arr m
      = Returns (withoutBreaks (g +:+ String "{" (body +:+ String "}" EmptyString))).
Proof.
  intros Hm.
  destruct (findOpen (dropn (Z.to_nat m) arr) m) as [m1|] eqn:Ef.
  2:{ left. unfold balance. destruct (Z.ltb_spec m 0); [lia|]. rewrite Ef. reflexivity. }
  destruct (findOpen_inv _ _ _ Ef) as (g & tail0 & Hd & Hg & ->).
  destruct (split_at (Z.to_nat m) arr) as (p & Hp & Hl).
  { rewrite Hd. destruct g; discriminate. }
  assert (Hpm : len p = m) by (unfold len; rewrite Hl; lia).
  rewrite Hd in Hp.
  destruct (matchBraces tail0 (len p + len g + 1) 1) as [m2 count] eqn:Em.
  destruct (Z.eq_dec count 0%Z) as [->|Hc].
  - right.
    apply (matchBraces_unwinds tail0 0) in Em as (pre & tail & -> & Hu & _);
      [|reflexivity].
    inversion Hu as [|k body s0 Hb Hu0]; subst k pre.
    inversion Hu0; subst s0.
    exists g, body, tail. rewrite Hd.
    split; [rewrite app_assoc_s, app_cons, app_empty; reflexivity|].
    split; [exact Hg|]. split; [exact Hb|].
    rewrite Hp at 1. rewrite <- Hpm.
    rewrite app_assoc_s, app_cons, app_empty. apply balance_block; assumption.
  - left. rewrite Hp, <- Hpm. rewrite balance_unfold by exact Hg.
    rewrite Em. destruct (Z.eqb_spec count 0); [contradiction|reflexivity].
Qed.

Lemma containsByte_cons (c a : ascii) (s : string) :
  containsByte c (String a s) = Ascii.eqb c a || containsByte c s.
Proof. reflexivity. Qed.

Lemma withoutBreaks_clean (s : string) :
  containsByte (byte 10) (withoutBreaks s) = false /\
  containsByte (byte 9) (withoutBreaks s) = false.
Proof.
  induction s as [|a s [IH1 IH2]]; [split; reflexivity|].
  simpl withoutBreaks.
  destruct (byteval a =? 10)%Z eqn:E10; simpl orb; cbv iota; [auto|].
  destruct (byteval a =? 9)%Z eqn:E9; [auto|].
  rewrite !containsByte_cons, (eqb_byteval 10 a), (eqb_byteval 9 a) by reflexivity.
  change (Z.of_N 10) with 10%Z. change (Z.of_N 9) with 9%Z.
  rewrite E10, E9, IH1, IH2. split; reflexivity.
Qed.

End BalancerGeneral.

(** X1: [balance] panics exactly when the offset is negative; from any other
    offset, beyond the end of the buffer included, it returns. *)
Theorem balance_panics_iff (arr : string) (m : Z) :
  balance arr m = Panics <-> (m < 0)%Z.
Proof.
  split; [|apply balance_negative].
  intros H. destruct (Z.lt_ge_cases m 0) as [Hm|Hm]; [exact Hm|].
  destruct (balance_cases arr m Hm) as [E|(g & body & tail & _ & _ & _ & E)];
    rewrite E in H; discriminate.
Qed.

(** X2: whatever the buffer, a text that [balance] returns and that is not
    empty is the stretch from the offset to the closing brace of a
    well-formed block, with no opening brace before the block, newlines and
    tabs removed: never a part of a block. *)
Theorem balance_returns_whole_block (arr : string) (m : Z) (r : string) :
  balance arr m = Returns r ->
  r <> EmptyString ->
  exists g body tail,
    dropn (Z.to_nat m) arr = g +:+ "{" +:+ body +:+ "}" +:+ tail /\
    noOpen g = true /\ balanced body /\
    r = withoutBreaks (g +:+ "{" +:+ body +:+ "}").
Proof.
  intros H Hr.
  assert (Hm : (0 <= m)%Z).
  { destruct (Z.lt_ge_cases m 0) as [Hm|Hm]; [|exact Hm].
    rewrite balance_negative in H by exact Hm. discriminate. }
  destruct (balance_cases arr m Hm) as [E|(g & body & tail & Hd & Hg & Hb & E)];
    rewrite E in H; injection H as <-; [congruence|].
  exists g, body, tail. auto.
Qed.

Lemma balance_returns_whole_block_witness :
  exists g body tail,
    dropn (Z.to_nat 7) "int x; void f(int a) { if (a) { g(); } } }"
      = g +:+ "{" +:+ body +:+ "}" +:+ tail /\
    noOpen g = true /\ balanced body /\
    "void f(int a) { if (a) { g(); } }" = withoutBreaks (g +:+ "{" +:+ body +:+ "}").
Proof.
  apply (balance_returns_whole_block "int x; void f(int a) { if (a) { g(); } } }" 7).
  - vm_compute. reflexivity.
  - discriminate.
Defined.

(** X3: no text returned by [balance] holds a newline or a tab. *)
Theorem balance_one_line (arr : string) (m : Z) (r : string) :
  balance arr m = Returns r ->
  containsByte (byte 10) r = false /\ containsByte (byte 9) r = false.
Proof.
  intros H.
  assert (Hm : (0 <= m)%Z).
  { destruct (Z.lt_ge_cases m 0) as [Hm|Hm]; [|exact Hm].
    rewrite balance_negative in H by exact Hm. discriminate. }
  destruct (balance_cases arr m Hm) as [E|(g & body & tail & _ & _ & _ & E)];
    rewrite E in H; injection H as <-; [split; reflexivity|].
  apply withoutBreaks_clean.
Qed.

Lemma balance_one_line_witness :
  containsByte (byte 10) "f() {return 1;}" = false /\
  containsByte (byte 9) "f() {return 1;}" = false.
Proof.
  apply (balance_one_line ("f() {" +:+ nl +:+ tab +:+ "return 1;" +:+ nl +:+ "}" +:+ nl) 0).
  vm_compute. reflexivity.
Defined.

(** X4: when no opening brace lies at or after the offset (as when the
    offset is at or beyond the end of the buffer), [balance] returns the
    empty string. *)
Theorem balance_without_brace (arr : string) (m : Z) :
  (0 <= m)%Z ->
  noOpen (dropn (Z.to_nat m) arr) = true ->
  balance arr m = Returns EmptyString.
Proof.
  intros Hm Hn. unfold balance. destruct (Z.ltb_spec m 0); [lia|].
  rewrite findOpen_none by exact Hn. reflexivity.
Qed.

Lemma balance_without_brace_witness :
  balance "int f(int a) } ;" 3 = Returns EmptyString /\
  balance "{ }" 40 = Returns EmptyString.
Proof.
  split.
  - apply (balance_without_brace "int f(int a) } ;" 3); [lia|reflexivity].
  - apply (balance_without_brace "{ }" 40); [lia|reflexivity].
Defined.

(** ** Source extraction when it returns *)

Section Extraction.

Variable content : string.

Lemma extracted_source (fn : Function) (src : string) :
  balance content (Index content (fn_Header fn)) = Returns src ->
  extracted content fn = setSource fn src.
Proof. unfold extracted. intros ->. reflexivity. Qed.

Lemma len_positive (s : string) : (0 <? len s)%Z = negb (String.eqb s EmptyString).
Proof.
  destruct s as [|a s]; [reflexivity|]. rewrite len_cons.
  pose proof (len_nonneg s). destruct (Z.ltb_spec 0 (len s + 1)); [reflexivity|lia].
Qed.

Lemma len_zero (s : string) : (len s =? 0)%Z = String.eqb s EmptyString.
Proof.
  destruct s as [|a s]; [reflexivity|]. rewrite len_cons.
  pose proof (len_nonneg s). destruct (Z.eqb_spec (len s + 1) 0); [lia|reflexivity].
Qed.

Lemma eqb_empty_false (s : string) : s <> EmptyString -> String.eqb s EmptyString = false.
Proof. destruct s; [congruence|reflexivity]. Qed.

(** One iteration on a Function whose extraction succeeds. *)
Lemma extractLoop_step (n : nat) (done rest : list Function) (fn : Function) :
  extractable content fn ->
  extractLoop content (S n) (length done) (done ++ fn :: rest)
  = extractLoop content n (length (done ++ [extracted content fn]))
      ((done ++ [extracted content fn]) ++ rest).
Proof.
  intros (Hh & src & Hb & Hs). simpl extractLoop.
  rewrite (list_lookup_middle done rest fn (length done) eq_refl).
  rewrite len_zero, (eqb_empty_false _ Hh), Hb. simpl obind.
  rewrite len_positive, (eqb_empty_false _ Hs). simpl negb. cbv iota.
  rewrite insert_app_r_alt by lia. rewrite Nat.sub_diag. simpl.
  rewrite (extracted_source fn src Hb).
  rewrite List.length_app. simpl length. rewrite Nat.add_1_r.
  rewrite <- List.app_assoc. reflexivity.
Qed.

(** One iteration on a Function whose extraction fails. *)
Lemma extractLoop_drop (n : nat) (done rest : list Function) (fn : Function) :
  fn_Header fn <> EmptyString ->
  balance content (Index content (fn_Header fn)) = Returns EmptyString ->
  extractLoop content (S n) (length done) (done ++ fn :: rest)
  = extractLoop content n (S (length done)) (done ++ rest).
Proof.
  intros Hh Hb. simpl extractLoop.
  rewrite (list_lookup_middle done rest fn (length done) eq_refl).
  rewrite len_zero, (eqb_empty_false _ Hh), Hb. simpl obind.
  change (0 <? len EmptyString)%Z with false. cbv iota.
  rewrite take_app_length.
  change (done ++ fn :: rest) with (done ++ [fn] ++ rest).
  rewrite List.app_assoc, drop_app_length'; [reflexivity|].
  rewrite List.length_app. simpl. lia.
Qed.

Lemma extractLoop_all (rest done : list Function) :
  Forall (extractable content) rest ->
  extractLoop content (length rest) (length done) (done ++ rest)
  = Returns (done ++ map (extracted content) rest).
Proof.
  revert done; induction rest as [|fn rest IH]; intros done Hall.
  - reflexivity.
  - inversion Hall as [|? ? Hfn Hrest]; subst.
    simpl length. rewrite extractLoop_step by exact Hfn.
    rewrite IH by exact Hrest. rewrite <- List.app_assoc. reflexivity.
Qed.

Lemma extractLoop_last (front done : list Function) (fn : Function) :
  Forall (extractable content) front ->
  fn_Header fn <> EmptyString ->
  balance content (Index content (fn_Header fn)) = Returns EmptyString ->
  extractLoop content (length (front ++ [fn])) (length done) (done ++ front ++ [fn])
  = Returns (done ++ map (extracted content) front).
Proof.
  revert done; induction front as [|g front IH]; intros done Hall Hh Hb.
  - simpl length. simpl app. rewrite extractLoop_drop by assumption.
    simpl. rewrite !List.app_nil_r. reflexivity.
  - inversion Hall as [|? ? Hg Hfront]; subst.
    change (length ((g :: front) ++ [fn])) with (S (length (front ++ [fn]))).
    change ((g :: front) ++ [fn]) with (g :: (front ++ [fn])).
    rewrite extractLoop_step by exact Hg.
    rewrite IH by assumption. rewrite <- List.app_assoc. reflexivity.
Qed.

(** When the loop returns, either every Function was extracted, or all but
    the last were and the last one was removed. *)
Lemma extractLoop_returns (rest done r : list Function) :
  extractLoop content (length rest) (length done) (done ++ rest) = Returns r ->
  (Forall (extractable content) rest /\
   r = done ++ map (extracted content) rest) \/
  (exists front fn,
     rest = front ++ [fn] /\ Forall (extractable content) front /\
     balance content (Index content (fn_Header fn)) = Returns EmptyString /\
     r = done ++ map (extracted content) front).
Proof.
  revert done; induction rest as [|fn rest IH]; intros done H.
  - left. simpl in H. injection H as <-. split; [constructor|reflexivity].
  - destruct (String.eqb (fn_Header fn) EmptyString) eqn:Hh.
    { simpl in H. rewrite (list_lookup_middle done rest fn (length done) eq_refl) in H.
      rewrite len_zero, Hh in H. discriminate. }
    assert (Hne : fn_Header fn <> EmptyString) by (intros E; rewrite E in Hh; discriminate).
    destruct (balance content (Index content (fn_Header fn))) as [src| |] eqn:Hb.
    2,3: simpl in H;
         rewrite (list_lookup_middle done rest fn (length done) eq_refl) in H;
         rewrite len_zero, Hh, Hb in H; discriminate.
    destruct src as [|a src].
    + right. simpl length in H. rewrite extractLoop_drop in H by assumption.
      destruct rest as [|g rest].
      * simpl in H. injection H as <-. exists [], fn.
        split; [reflexivity|]. split; [constructor|]. split; [exact Hb|reflexivity].
      * exfalso. revert H. apply extractLoop_short.
        -- rewrite List.length_app. simpl. lia.
        -- simpl. lia.
    + assert (Hfn : extractable content fn).
      { split; [exact Hne|]. exists (String a src). split; [exact Hb|discriminate]. }
      simpl length in H. rewrite extractLoop_step in H by exact Hfn.
      apply IH in H as [(Hall & ->)|(front & l & -> & Hall & Hl & ->)].
      * left. split; [constructor; assumption|].
        rewrite <- List.app_assoc. reflexivity.
      * right. exists (fn :: front), l.
        split; [reflexivity|]. split; [constructor; assumption|].
        split; [exact Hl|]. rewrite <- List.app_assoc. reflexivity.
Qed.

Lemma extracted_sources (l : list Function) :
  Forall (extractable content) l ->
  Forall (fun fn => fn_Source fn <> EmptyString) (map (extracted content) l).
Proof.
  induction 1 as [|fn l (Hh & src & Hb & Hs) _ IH]; simpl; constructor; [|exact IH].
  rewrite (extracted_source fn src Hb). exact Hs.
Qed.

Lemma extracted_name (fn : Function) : fn_Name (extracted content fn) = fn_Name fn.
Proof. unfold extracted. destruct (balance _ _); reflexivity. Qed.

End Extraction.

Lemma GetFuncs_names (f : File) : GetFuncs f = map fn_Name (f_Funcs f).
Proof.
  unfold GetFuncs.
  assert (G : forall l acc,
             fold_left (fun fn f => fn ++ [fn_Name f]) l acc = acc ++ map fn_Name l).
  { induction l as [|x l IH]; intros acc; simpl; [rewrite List.app_nil_r; reflexivity|].
    rewrite IH, <- List.app_assoc. reflexivity. }
  apply (G (f_Funcs f) []).
Qed.

Lemma removelast_snoc {A : Type} (l : list A) (x : A) : removelast (l ++ [x]) = l.
Proof. apply removelast_last. Qed.

(** X5: when the file exists and extraction succeeds for every Function
    (header not empty, source found and not empty), [extractFuncSrc]
    returns the File with every Function kept, in the same order, each
    with its source filled in. *)
Theorem extract_all_kept (content : string) (file : File) :
  Forall (extractable content) (f_Funcs file) ->
  extractFuncSrc (Some content) file
  = Returns (mkFile (f_Id file) (f_Name file) (f_Path file)
               (map (extracted content) (f_Funcs file))).
Proof.
  intros Hall. unfold extractFuncSrc.
  pose proof (extractLoop_all content (f_Funcs file) [] Hall) as E.
  change (length (@nil Function)) with 0%nat in E.
  change ([] ++ f_Funcs file) with (f_Funcs file) in E.
  rewrite E. reflexivity.
Qed.

Lemma extract_all_kept_witness :
  extractFuncSrc (Some wholeFile) (mkFile 7 "A.java" "A.java" [functionF; functionG])
  = Returns (mkFile 7 "A.java" "A.java"
               (map (extracted wholeFile) [functionF; functionG])).
Proof.
  apply (extract_all_kept wholeFile (mkFile 7 "A.java" "A.java" [functionF; functionG])).
  repeat constructor; try discriminate.
  - eexists; split; [vm_compute; reflexivity|discriminate].
  - eexists; split; [vm_compute; reflexivity|discriminate].
Defined.

(** X6: when the file exists and only the last Function fails (its braces
    never balance), that Function is removed and all the others are kept,
    in order, with their sources. *)
Theorem extract_last_dropped (content : string) (file : File)
    (front : list Function) (fn : Function) :
  f_Funcs file = front ++ [fn] ->
  Forall (extractable content) front ->
  fn_Header fn <> EmptyString ->
  balance content (Index content (fn_Header fn)) = Returns EmptyString ->
  extractFuncSrc (Some content) file
  = Returns (mkFile (f_Id file) (f_Name file) (f_Path file)
               (map (extracted content) front)).
Proof.
  intros Hf Hall Hh Hb. unfold extractFuncSrc. rewrite Hf.
  pose proof (extractLoop_last content front [] fn Hall Hh Hb) as E.
  change (length (@nil Function)) with 0%nat in E.
  change ([] ++ front ++ [fn]) with (front ++ [fn]) in E.
  rewrite E. reflexivity.
Qed.

Lemma extract_last_dropped_witness :
  extractFuncSrc (Some truncatedF) (mkFile 7 "A.java" "A.java" [functionG; functionF])
  = Returns (mkFile 7 "A.java" "A.java" (map (extracted truncatedF) [functionG])).
Proof.
  apply (extract_last_dropped truncatedF
           (mkFile 7 "A.java" "A.java" [functionG; functionF]) [functionG] functionF).
  - reflexivity.
  - repeat constructor; try discriminate.
    eexists; split; [vm_compute; reflexivity|discriminate].
  - discriminate.
  - vm_compute. reflexivity.
Defined.

(** X7: whenever [extractFuncSrc] returns on an existing file, the File keeps
    its id, name and path, no Function in it has an empty source, and its
    Functions are the extracted forms of all the given ones or of all but
    the last. *)
Theorem extract_returns_sources (content : string) (file file' : File) :
  extractFuncSrc (Some content) file = Returns file' ->
  f_Id file' = f_Id file /\ f_Name file' = f_Name file /\
  f_Path file' = f_Path file /\
  Forall (fun fn => fn_Source fn <> EmptyString) (f_Funcs file') /\
  (f_Funcs file' = map (extracted content) (f_Funcs file) \/
   f_Funcs file' = map (extracted content) (removelast (f_Funcs file))).
Proof.
  unfold extractFuncSrc. intros H.
  destruct (extractLoop content (length (f_Funcs file)) 0 (f_Funcs file)) as [r| |] eqn:E;
    simpl obind in H; try discriminate.
  injection H as <-. simpl.
  do 3 (split; [reflexivity|]).
  apply (extractLoop_returns content (f_Funcs file) [] r) in E
    as [(Hall & ->)|(front & fn & Hf & Hall & _ & ->)]; simpl app.
  - split; [apply extracted_sources; exact Hall|left; reflexivity].
  - split; [apply extracted_sources; exact Hall|right].
    rewrite Hf, removelast_snoc. reflexivity.
Qed.

Lemma extract_returns_sources_witness :
  Forall (fun fn => fn_Source fn <> EmptyString)
    [setSource functionG "public static int g(int b) { return b; }"].
Proof.
  apply (extract_returns_sources truncatedF
           (mkFile 7 "A.java" "A.java" [functionG; functionF])
           (mkFile 7 "A.java" "A.java"
              [setSource functionG "public static int g(int b) { return b; }"])).
  vm_compute. reflexivity.
Defined.

(** X8: source extraction neither renames nor reorders: when it returns,
    [GetFuncs] of the result is [GetFuncs] of the File given, or that list
    without its last name. *)
Theorem extract_keeps_names (content : string) (file file' : File) :
  extractFuncSrc (Some content) file = Returns file' ->
  GetFuncs file' = GetFuncs file \/ GetFuncs file' = removelast (GetFuncs file).
Proof.
  intros H. rewrite !GetFuncs_names.
  assert (M : forall l, map fn_Name (map (extracted content) l) = map fn_Name l).
  { intros l. rewrite List.map_map. apply List.map_ext. apply extracted_name. }
  unfold extractFuncSrc in H.
  destruct (extractLoop content (length (f_Funcs file)) 0 (f_Funcs file)) as [r| |] eqn:E;
    simpl obind in H; try discriminate.
  injection H as <-. simpl f_Funcs.
  apply (extractLoop_returns content (f_Funcs file) [] r) in E
    as [(Hall & ->)|(front & fn & Hf & Hall & _ & ->)]; simpl app.
  - left. apply M.
  - right. rewrite Hf, M, List.map_app. simpl map. rewrite removelast_snoc. reflexivity.
Qed.

Lemma extract_keeps_names_witness :
  GetFuncs (mkFile 7 "A.java" "A.java"
              [setSource functionG "public static int g(int b) { return b; }"])
    = GetFuncs (mkFile 7 "A.java" "A.java" [functionG; functionF]) \/
  GetFuncs (mkFile 7 "A.java" "A.java"
              [setSource functionG "public static int g(int b) { return b; }"])
    = removelast (GetFuncs (mkFile 7 "A.java" "A.java" [functionG; functionF])).
Proof.
  apply (extract_keeps_names truncatedF).
  vm_compute. reflexivity.
Defined.

(** ** The header parser: verdicts *)

Section Verdicts.

Lemma get_snoc (s : string) (c : ascii) :
  String.get (String.length s) (s +:+ String c EmptyString) = Some c.
Proof.
  induction s as [|a s IH]; [reflexivity|]. rewrite app_cons. exact IH.
Qed.

Lemma index_snoc (s : string) (c : ascii) :
  index (s +:+ String c EmptyString) (len (s +:+ String c EmptyString) - 1) = Returns c.
Proof.
  unfold index. rewrite len_append, len_cons. unfold len. simpl String.length.
  replace (Z.of_nat (String.length s) + (Z.of_nat 0 + 1) - 1)%Z
    with (Z.of_nat (String.length s)) by lia.
  destruct (Z.ltb_spec (Z.of_nat (String.length s)) 0); [lia|].
  rewrite Nat2Z.id, get_snoc. reflexivity.
Qed.

Lemma snoc_exists (s : string) :
  s <> EmptyString -> exists s' c, s = s' +:+ String c EmptyString.
Proof.
  induction s as [|a s IH]; [congruence|]. intros _.
  destruct s as [|b s].
  - exists EmptyString, a. reflexivity.
  - destruct IH as (s' & c & E); [discriminate|].
    exists (String a s'), c. rewrite app_cons, <- E. reflexivity.
Qed.

(** The last byte of a cleaned header is [;] exactly when the header ends
    with it. *)
Lemma last_byte_terminator (s : string) (c : ascii) :
  index s (len s - 1) = Returns c ->
  (byteval c =? 59)%Z = true <-> exists s', s = s' +:+ ";".
Proof.
  intros Hi.
  assert (Hne : s <> EmptyString) by (intros ->; discriminate Hi).
  destruct (snoc_exists s Hne) as (s' & d & ->).
  rewrite index_snoc in Hi. injection Hi as ->.
  split.
  - intros H. apply Z.eqb_eq in H. exists s'.
    assert (c = ";"%char) as -> by (apply byteval_inj; exact H). reflexivity.
  - intros (s'' & E).
    assert (L : index (s' +:+ String c EmptyString)
                  (len (s' +:+ String c EmptyString) - 1) = Returns ";"%char).
    { rewrite E. apply index_snoc. }
    rewrite index_snoc in L. injection L as ->. reflexivity.
Qed.

Lemma Split_byte_length (c : ascii) (s : string) :
  length (Split s (String c EmptyString)) = S (countByte c s).
Proof.
  induction s as [|a s IH]; [reflexivity|].
  rewrite Split_byte_cons. simpl countByte.
  destruct (Ascii.eqb c a); simpl length; [rewrite IH; reflexivity|].
  destruct (Split s (String c EmptyString)) as [|p q] eqn:E.
  - exfalso; exact (Split_nonempty _ _ E).
  - simpl in *. exact IH.
Qed.

(** The pieces of a split hold no separator byte, and no byte that is not
    in the text split. *)
Lemma Split_byte_pieces (c : ascii) (s : string) :
  Forall (fun piece => containsByte c piece = false) (Split s (String c EmptyString)).
Proof.
  induction s as [|a s IH]; [repeat constructor|].
  rewrite Split_byte_cons. destruct (Ascii.eqb c a) eqn:E.
  - constructor; [reflexivity|exact IH].
  - destruct (Split s (String c EmptyString)) as [|p q]; [repeat constructor; simpl; rewrite E; reflexivity|].
    inversion IH; subst. constructor; [|assumption].
    simpl. rewrite E. assumption.
Qed.

Lemma Split_byte_within (c d : ascii) (s : string) :
  containsByte d s = false ->
  Forall (fun piece => containsByte d piece = false) (Split s (String c EmptyString)).
Proof.
  induction s as [|a s IH]; intros H; [repeat constructor|].
  simpl in H. apply orb_false_iff in H as [Ha Hs].
  rewrite Split_byte_cons. destruct (Ascii.eqb c a).
  - constructor; [reflexivity|exact (IH Hs)].
  - specialize (IH Hs).
    destruct (Split s (String c EmptyString)) as [|p q];
      [repeat constructor; simpl; rewrite Ha; reflexivity|].
    inversion IH; subst. constructor; [|assumption].
    simpl. rewrite Ha. assumption.
Qed.

Lemma last_in {A : Type} (l : list A) (d : A) : l <> [] -> In (List.last l d) l.
Proof.
  induction l as [|x [|y l] IH]; intros H; [congruence|left; reflexivity|].
  right. apply IH. discriminate.
Qed.

Lemma returnTasks_in (toks : list string) (k : Task) :
  In k (returnTasks toks) -> exists tok, k = CheckReturn tok /\ In tok toks.
Proof.
  unfold returnTasks. destruct (2 <? length toks)%nat; [|intros []].
  intros H. apply in_map_iff in H as (tok & <- & Hin). eauto.
Qed.

Lemma paramTasks_in (parameters : list string) (j : nat) (k : Task) :
  In k (paramTasks j parameters) ->
  exists i tok, k = CheckParam (j + i) tok /\ parameters !! i = Some tok /\
                Nat.even (j + i) = true.
Proof.
  revert j; induction parameters as [|t rest IH]; intros j H; [destruct H|].
  simpl in H. apply in_app_or in H as [H|H].
  - destruct (Nat.even j) eqn:E; [|destruct H].
    destruct H as [<-|[]]. exists 0%nat, t. rewrite Nat.add_0_r. auto.
  - apply IH in H as (i & tok & -> & Hl & He).
    exists (S i), tok. replace (j + S i)%nat with (S j + i)%nat by lia. auto.
Qed.

Variable sched : Schedule.
Variable funcTypes : gmap string bool.
Hypothesis sched_fair : fair sched.

(** A declared type that is not a key makes one of the tasks halt. *)
Lemma declared_halts (header lhs rhs t : string) :
  Split (cleanHeader header) "(" = [lhs; rhs] ->
  (2 < length (leftTokens lhs))%nat ->
  declaredType header t ->
  funcTypes !! t = None ->
  existsb (taskHalts funcTypes) (headerTasks lhs rhs) = true.
Proof.
  intros Hs Hlen (lhs' & rhs' & Hs' & Ht) Habs.
  rewrite Hs in Hs'. injection Hs' as <- <-.
  destruct Ht as [(tok & Hin & ->)|(i & tok & He & Hl & ->)].
  - apply (halts_in funcTypes _ (CheckReturn tok)); [|exact Habs].
    unfold headerTasks, returnTasks. apply in_or_app; left.
    destruct (Nat.ltb_spec 2 (length (leftTokens lhs))); [|lia].
    apply in_map. exact Hin.
  - apply (halts_in funcTypes _ (CheckParam i tok)); [|exact Habs].
    unfold headerTasks. apply in_or_app; right.
    apply (paramTasks_lookup _ i 0 tok Hl He).
Qed.

(** Every task of a header checks a declared type of it. *)
Lemma task_declared (header lhs rhs : string) (k : Task) :
  Split (cleanHeader header) "(" = [lhs; rhs] ->
  In k (headerTasks lhs rhs) ->
  declaredType header (taskType k).
Proof.
  intros Hs Hin. exists lhs, rhs. split; [exact Hs|].
  unfold headerTasks in Hin. apply in_app_or in Hin as [H|H].
  - apply returnTasks_in in H as (tok & -> & Hin). left. eauto.
  - apply paramTasks_in in H as (i & tok & -> & Hl & He). right.
    exists i, tok. auto.
Qed.

End Verdicts.

(** X9: neither the order in which the checks of a header take effect nor
    the loss of racing appends changes the verdict or the name: two runs of
    the parser on the same header both panic or both return, with the same
    accepted flag and the same name. *)
Theorem verdict_schedule_independent (s1 s2 : Schedule) (header : string)
    (funcTypes : gmap string bool) (p1 : Parsed) :
  lossy funcTypes s1 header -> lossy funcTypes s2 header ->
  parseJavaFuncHeader s1 header funcTypes = Returns p1 ->
  exists p2,
    parseJavaFuncHeader s2 header funcTypes = Returns p2 /\
    p_ok p2 = p_ok p1 /\ p_name p2 = p_name p1.
Proof.
  intros F1 F2 H1.
  assert (Hne : cleanHeader header <> EmptyString).
  { intros E. apply (parse_empty s1 funcTypes) in E. congruence. }
  destruct (index_last _ Hne) as [c Hi].
  destruct (byteval c =? 59)%Z eqn:Hc.
  { rewrite (parse_terminator s1 _ _ _ Hi Hc) in H1. injection H1 as <-.
    eexists; split; [apply (parse_terminator s2 _ _ _ Hi Hc)|]. simpl. auto. }
  destruct (Split (cleanHeader header) "(") as [|lhs [|rhs [|d l]]] eqn:Hs.
  1,2,4: rewrite (parse_no_split s1 _ _ _ Hi Hc) in H1 by (rewrite Hs; simpl; lia);
         injection H1 as <-;
         eexists; split;
           [apply (parse_no_split s2 _ _ _ Hi Hc); rewrite Hs; simpl; lia|];
         simpl; auto.
  destruct (parse_split_lossy funcTypes s1 header c lhs rhs F1 Hi Hc Hs)
    as (q1 & ? & ? & E1 & _ & _ & _ & _ & Ok1 & N1).
  destruct (parse_split_lossy funcTypes s2 header c lhs rhs F2 Hi Hc Hs)
    as (q2 & ? & ? & E2 & _ & _ & _ & _ & Ok2 & N2).
  rewrite E1 in H1. injection H1 as <-.
  exists q2. split; [exact E2|].
  split; [congruence|]. rewrite N1, N2, Ok1, Ok2. reflexivity.
Qed.

Lemma verdict_schedule_independent_witness :
  exists p2,
    parseJavaFuncHeader dropsLast "public static String pick(int a, String b) {"
      scenarioTypesWithModifiers = Returns p2 /\
    p_ok p2 = true /\ p_name p2 = "pick".
Proof.
  apply (verdict_schedule_independent reverseOrder dropsLast
           "public static String pick(int a, String b) {" scenarioTypesWithModifiers
           (mkParsed "pick" ["String"; "int"] ["String"] true)).
  - exists []. split; [|constructor].
    unfold reverseOrder. rewrite List.app_nil_r. apply Permutation_rev.
  - exists [CheckParam 2 "String"]. split.
    + vm_compute. apply Permutation_refl.
    + repeat constructor. exists (CheckParam 0 "int").
      split; [vm_compute; tauto|]. split; reflexivity.
  - vm_compute. reflexivity.
Defined.

(** X10: the parser accepts a header exactly when its cleaned text splits at
    one opening parenthesis, has at least four tokens before it (the name
    included), does not end with a semicolon, and every declared type is a
    key of the universe. *)
Theorem acceptance_criterion (sched : Schedule) (header : string)
    (funcTypes : gmap string bool) :
  fair sched ->
  (exists p, parseJavaFuncHeader sched header funcTypes = Returns p /\ p_ok p = true)
  <->
  (exists lhs rhs,
     Split (cleanHeader header) "(" = [lhs; rhs] /\
     (4 <= length (Split lhs " "))%nat /\
     (forall s, cleanHeader header <> s +:+ ";") /\
     (forall t, declaredType header t -> funcTypes !! t <> None)).
Proof.
  intros Hfair. split.
  - intros (p & Hp & Hok).
    assert (Hne : cleanHeader header <> EmptyString).
    { intros E. apply (parse_empty sched funcTypes) in E. congruence. }
    destruct (index_last _ Hne) as [c Hi].
    destruct (byteval c =? 59)%Z eqn:Hc.
    { rewrite (parse_terminator sched _ _ _ Hi Hc) in Hp. injection Hp as <-.
      discriminate Hok. }
    destruct (Split (cleanHeader header) "(") as [|lhs [|rhs [|d l]]] eqn:Hs.
    1,2,4: rewrite (parse_no_split sched _ _ _ Hi Hc) in Hp by (rewrite Hs; simpl; lia);
           injection Hp as <-; discriminate Hok.
    destruct (parse_split sched funcTypes header c lhs rhs Hfair Hi Hc Hs)
      as (q & E & _ & _ & Ok & _).
    rewrite E in Hp. injection Hp as ->. rewrite Hok in Ok.
    symmetry in Ok. apply negb_true_iff, orb_false_iff in Ok as [Hex Hlen].
    apply Nat.leb_gt in Hlen.
    exists lhs, rhs. split; [reflexivity|]. split; [|split].
    + unfold leftTokens in Hlen. rewrite length_removelast in Hlen. lia.
    + intros s Hs'.
      destruct (last_byte_terminator _ _ Hi) as [_ Hl].
      rewrite Hl in Hc by eauto. discriminate.
    + intros t Ht Habs.
      rewrite (declared_halts funcTypes header lhs rhs t Hs Hlen Ht Habs) in Hex.
      discriminate.
  - intros (lhs & rhs & Hs & Hlen & Hsemi & Hall).
    destruct (index_last _ (split_pair_nonempty _ _ _ Hs)) as [c Hi].
    destruct (byteval c =? 59)%Z eqn:Hc.
    { destruct (last_byte_terminator _ _ Hi) as [Hl _].
      destruct (Hl Hc) as [s Hs']. exfalso. exact (Hsemi s Hs'). }
    destruct (parse_split sched funcTypes header c lhs rhs Hfair Hi Hc Hs)
      as (p & E & _ & _ & Ok & _).
    exists p. split; [exact E|]. rewrite Ok. apply negb_true_iff, orb_false_iff.
    split.
    + destruct (existsb _ _) eqn:Hex; [|reflexivity].
      apply existsb_exists in Hex as (k & Hin & Hk). exfalso.
      apply (Hall (taskType k)); [exact (task_declared header lhs rhs k Hs Hin)|].
      unfold taskHalts in Hk. destruct (funcTypes !! taskType k); [discriminate|reflexivity].
    + apply Nat.leb_gt. unfold leftTokens. rewrite length_removelast. lia.
Qed.

(** X11: a header whose cleaned text ends with a semicolon is returned as
    its own name, with empty lists and accepted = false, whatever else it
    holds. *)
Theorem terminator_rejected (sched : Schedule) (header : string)
    (funcTypes : gmap string bool) (s : string) :
  cleanHeader header = s +:+ ";" ->
  parseJavaFuncHeader sched header funcTypes
  = Returns (mkParsed (s +:+ ";") [] [] false).
Proof.
  intros Hc. rewrite <- Hc. apply (parse_terminator _ _ _ ";"%char).
  - rewrite Hc. apply index_snoc.
  - reflexivity.
Qed.

Lemma terminator_rejected_witness :
  parseJavaFuncHeader programOrder "  void helper(int a); // abstract"
    scenarioTypesWithModifiers
  = Returns (mkParsed ("void helper(int a)" +:+ ";") [] [] false).
Proof.
  apply (terminator_rejected programOrder "  void helper(int a); // abstract"
           scenarioTypesWithModifiers "void helper(int a)").
  vm_compute. reflexivity.
Defined.

(** X12: a header whose cleaned text is not empty and holds no opening
    parenthesis, or more than one, is rejected with empty lists: no type
    of it is looked up. *)
Theorem parenthesis_count_rejects (sched : Schedule) (header : string)
    (funcTypes : gmap string bool) :
  cleanHeader header <> EmptyString ->
  countByte "(" (cleanHeader header) <> 1%nat ->
  exists p, parseJavaFuncHeader sched header funcTypes = Returns p /\
            p_ok p = false /\ p_in p = [] /\ p_out p = [].
Proof.
  intros Hne Hcount. destruct (index_last _ Hne) as [c Hi].
  destruct (byteval c =? 59)%Z eqn:Hc.
  { eexists; split; [apply (parse_terminator _ _ _ _ Hi Hc)|]. simpl. auto. }
  eexists; split; [apply (parse_no_split _ _ _ _ Hi Hc)|simpl; auto].
  rewrite Split_byte_length. lia.
Qed.

Lemma parenthesis_count_rejects_witness :
  (exists p, parseJavaFuncHeader programOrder "public class Calc {"
               scenarioTypesWithModifiers = Returns p /\
             p_ok p = false /\ p_in p = [] /\ p_out p = []) /\
  (exists p, parseJavaFuncHeader programOrder "public static int f(int (a)) {"
               scenarioTypesWithModifiers = Returns p /\
             p_ok p = false /\ p_in p = [] /\ p_out p = []).
Proof.
  split.
  - apply (parenthesis_count_rejects programOrder "public class Calc {"
             scenarioTypesWithModifiers); vm_compute; [discriminate|lia].
  - apply (parenthesis_count_rejects programOrder "public static int f(int (a)) {"
             scenarioTypesWithModifiers); vm_compute; [discriminate|lia].
Defined.

(** X13: the name of an accepted header is the last token before the
    parenthesis: it holds no space and no opening parenthesis. *)
Theorem accepted_name_token (sched : Schedule) (header : string)
    (funcTypes : gmap string bool) (p : Parsed) :
  parseJavaFuncHeader sched header funcTypes = Returns p ->
  p_ok p = true ->
  containsByte " " (p_name p) = false /\ containsByte "(" (p_name p) = false.
Proof.
  unfold parseJavaFuncHeader. intros Hr Hok.
  destruct (index _ _) as [c| |]; simpl obind in Hr; try discriminate.
  destruct (byteval c =? 59)%Z.
  { injection Hr as <-. discriminate Hok. }
  destruct (Split _ "(") as [|lhs [|rhs [|d l]]] eqn:Hs;
    try (injection Hr as <-; discriminate Hok).
  destruct (c_halt _ || _); injection Hr as <-; [discriminate Hok|].
  simpl p_name.
  assert (Hin : In (List.last (Split lhs " ") EmptyString) (Split lhs " "))
    by (apply last_in, Split_nonempty).
  split.
  - pose proof (Split_byte_pieces " " lhs) as Hp.
    rewrite List.Forall_forall in Hp. exact (Hp _ Hin).
  - pose proof (Split_byte_pieces "(" (cleanHeader header)) as Hp.
    rewrite Hs in Hp. inversion Hp as [|? ? Hl _]; subst.
    pose proof (Split_byte_within " " "(" lhs Hl) as Hw.
    rewrite List.Forall_forall in Hw. exact (Hw _ Hin).
Qed.

Lemma accepted_name_token_witness :
  containsByte " " "add" = false /\ containsByte "(" "add" = false.
Proof.
  apply (accepted_name_token programOrder scenarioA scenarioTypesWithModifiers
           (mkParsed "add" ["int"; "int"] ["int"] true)).
  - vm_compute. reflexivity.
  - reflexivity.
Defined.

(** ** The aggregator: what a returned File holds *)

Section Aggregator.

Lemma containsByte_app (c : ascii) (s t : string) :
  containsByte c (s +:+ t) = containsByte c s || containsByte c t.
Proof.
  induction s as [|a s IH]; [reflexivity|].
  rewrite app_cons, !containsByte_cons, IH, orb_assoc. reflexivity.
Qed.

Lemma hasPrefix_drop (c : ascii) (r s : string) :
  hasPrefix r s = true -> containsByte c r = false ->
  containsByte c (dropn (String.length r) s) = containsByte c s.
Proof.
  revert s; induction r as [|a r IH]; intros s Hp Hc; [reflexivity|].
  destruct s as [|b s]; [discriminate Hp|]. simpl in Hp.
  destruct (Ascii.eqb_spec a b) as [<-|]; [|discriminate].
  rewrite containsByte_cons in Hc. apply orb_false_iff in Hc as [Ha Hr].
  simpl dropn. rewrite containsByte_cons, Ha. simpl. apply IH; assumption.
Qed.

Lemma trimLeftRunes_keeps (c : ascii) (runes : list string) (fuel : nat) (s : string) :
  (forall r, In r runes -> containsByte c r = false) ->
  containsByte c (trimLeftRunes runes fuel s) = containsByte c s.
Proof.
  intros Hr. revert s; induction fuel as [|fuel IH]; intros s; [reflexivity|].
  simpl. destruct (leadingSpace runes s) as [n|] eqn:E; [|reflexivity].
  destruct (leadingSpace_some _ _ _ E) as (r & Hin & Hp & ->).
  rewrite IH. apply hasPrefix_drop; auto.
Qed.

Lemma containsByte_revString (c : ascii) (s acc : string) :
  containsByte c (revString s acc) = containsByte c s || containsByte c acc.
Proof.
  revert acc; induction s as [|a s IH]; intros acc; [reflexivity|].
  simpl revString. rewrite IH, !containsByte_cons.
  destruct (Ascii.eqb c a), (containsByte c s), (containsByte c acc); reflexivity.
Qed.

Lemma containsByte_revBytes (c : ascii) (s : string) :
  containsByte c (revBytes s) = containsByte c s.
Proof. unfold revBytes. rewrite containsByte_revString, orb_false_r. reflexivity. Qed.

(** Trimming keeps every byte that is in no white-space rune. *)
Lemma TrimSpace_keeps (c : ascii) (s : string) :
  forallb (fun r => negb (containsByte c r)) spaceRunes = true ->
  containsByte c (TrimSpace s) = containsByte c s.
Proof.
  intros Hf. rewrite forallb_forall in Hf.
  assert (Hr : forall r, In r spaceRunes -> containsByte c r = false).
  { intros r Hin. apply negb_true_iff. exact (Hf r Hin). }
  unfold TrimSpace, TrimRight, TrimLeft.
  rewrite containsByte_revBytes, trimLeftRunes_keeps, containsByte_revBytes.
  - apply trimLeftRunes_keeps. exact Hr.
  - intros r Hin. apply in_map_iff in Hin as (r0 & <- & Hin).
    rewrite containsByte_revBytes. exact (Hr r0 Hin).
Qed.

Lemma containsByte_Split0 (c : ascii) (s sep : string) :
  containsByte c (Split0 s sep) = true -> containsByte c s = true.
Proof.
  unfold Split0, Split. induction s as [|a s IH]; [discriminate|].
  simpl splitFrom. destruct (hasPrefix sep (String a s)); [discriminate|].
  destruct (splitFrom sep 0 s) as [|piece rest].
  - rewrite !containsByte_cons. simpl. rewrite orb_false_r. intros ->. reflexivity.
  - rewrite !containsByte_cons. intros H. apply orb_true_iff in H as [H|H].
    + rewrite H. reflexivity.
    + rewrite (IH H). apply orb_true_r.
Qed.

Lemma countByte_absent (c : ascii) (s : string) :
  containsByte c s = false -> countByte c s = 0%nat.
Proof.
  induction s as [|a s IH]; [reflexivity|]. rewrite containsByte_cons.
  intros H. apply orb_false_iff in H as [Ha Hs]. simpl. rewrite Ha, (IH Hs). reflexivity.
Qed.

Lemma split_pair_contains (c : ascii) (s a b : string) :
  Split s (String c EmptyString) = [a; b] -> containsByte c s = true.
Proof.
  intros H. pose proof (Split_byte_length c s) as L. rewrite H in L. simpl in L.
  destruct (containsByte c s) eqn:E; [reflexivity|].
  rewrite (countByte_absent c s E) in L. discriminate.
Qed.

Lemma ReplaceAll_keeps (d c : ascii) (s : string) :
  Ascii.eqb d c = false ->
  containsByte c (ReplaceAll s (String d EmptyString) EmptyString) = containsByte c s.
Proof.
  intros Hdc. rewrite ReplaceAll_byte.
  induction s as [|a s IH]; [reflexivity|].
  rewrite containsByte_cons. destruct (Ascii.eqb_spec d a) as [<-|Hda].
  - rewrite Ascii.eqb_sym, Hdc. exact IH.
  - rewrite containsByte_cons, IH. reflexivity.
Qed.

Lemma ReplaceAll_removes (d : ascii) (s : string) :
  containsByte d (ReplaceAll s (String d EmptyString) EmptyString) = false.
Proof.
  rewrite ReplaceAll_byte.
  induction s as [|a s IH]; [reflexivity|].
  destruct (Ascii.eqb d a) eqn:E; [exact IH|].
  rewrite containsByte_cons, E. exact IH.
Qed.

Variable sched : Schedule.
Variable funcTypes : gmap string bool.

(** What acceptance of a header implies. *)
Lemma accepted_facts (header : string) (p : Parsed) :
  parseJavaFuncHeader sched header funcTypes = Returns p ->
  p_ok p = true ->
  containsByte "(" header = true /\
  Forall (fun t => funcTypes !! t = Some true) (p_in p) /\
  Forall (fun t => funcTypes !! t = Some true) (p_out p).
Proof.
  unfold parseJavaFuncHeader. intros Hr Hok.
  destruct (index _ _) as [c| |]; simpl obind in Hr; try discriminate.
  destruct (byteval c =? 59)%Z.
  { injection Hr as <-. discriminate Hok. }
  destruct (Split _ "(") as [|lhs [|rhs [|d l]]] eqn:Hs;
    try (injection Hr as <-; discriminate Hok).
  split.
  - apply split_pair_contains in Hs. unfold cleanHeader in Hs.
    rewrite TrimSpace_keeps in Hs by reflexivity.
    apply containsByte_Split0 in Hs. exact Hs.
  - set (tasks := sched Task _) in Hr.
    destruct (runTasks_effect funcTypes tasks (mkChecks [] [] false (paramTokens rhs)))
      as (Ei & Eo & _).
    simpl in Ei, Eo.
    destruct (c_halt _ || _); injection Hr as <-; [discriminate Hok|].
    simpl. rewrite Ei, Eo. split; [apply taskIn_desired|apply taskOut_desired].
Qed.

Lemma parse_not_fatal (header : string) :
  parseJavaFuncHeader sched header funcTypes <> Fatal.
Proof.
  destruct (cleanHeader header) as [|a s] eqn:E.
  - rewrite (parse_empty sched funcTypes header E). discriminate.
  - destruct (parse_total sched funcTypes header) as [p ->]; [rewrite E|]; discriminate.
Qed.

Lemma nonempty_length {A : Type} (l : list A) : (0 <? length l)%nat = true -> l <> [].
Proof. destruct l; [discriminate|discriminate]. Qed.

Lemma headerFunc_qualifies (header : string) (l : list Function) :
  headerFunc sched funcTypes header = Returns l ->
  Forall (qualifies funcTypes) l /\
  Forall (fun fn => fn_Source fn = EmptyString) l.
Proof.
  unfold headerFunc. intros H.
  destruct (parseJavaFuncHeader sched header funcTypes) as [p| |] eqn:Hp;
    simpl obind in H; try discriminate.
  destruct (p_ok p && (0 <? length (p_in p))%nat && (0 <? length (p_out p))%nat) eqn:E;
    injection H as <-; [|split; constructor].
  apply andb_prop in E as [E Ho]. apply andb_prop in E as [Hok Hi].
  destruct (accepted_facts header p Hp Hok) as (Hpar & Din & Dout).
  split; [|repeat constructor].
  repeat constructor; simpl.
  - intros Hh.
    assert (C : containsByte "(" (TrimSpace (ReplaceAll header "{" EmptyString)) = true).
    { rewrite TrimSpace_keeps by reflexivity.
      rewrite (ReplaceAll_keeps "{" "(") by reflexivity. exact Hpar. }
    rewrite Hh in C. discriminate.
  - rewrite TrimSpace_keeps by reflexivity. apply ReplaceAll_removes.
  - apply nonempty_length. exact Hi.
  - apply nonempty_length. exact Ho.
  - exact Din.
  - exact Dout.
Qed.

Lemma collectFuncs_qualifies (headers : list string) (fns : list Function) :
  collectFuncs sched funcTypes headers = Returns fns ->
  Forall (qualifies funcTypes) fns /\
  Forall (fun fn => fn_Source fn = EmptyString) fns.
Proof.
  revert fns; induction headers as [|h rest IH]; intros fns H.
  - injection H as <-. split; constructor.
  - simpl in H.
    destruct (headerFunc sched funcTypes h) as [l| |] eqn:Eh; simpl obind in H;
      try discriminate.
    destruct (collectFuncs sched funcTypes rest) as [r| |] eqn:Er; simpl obind in H;
      try discriminate.
    injection H as <-.
    destruct (headerFunc_qualifies h l Eh) as [Q1 S1].
    destruct (IH r eq_refl) as [Q2 S2].
    split; apply Forall_app; auto.
Qed.

Lemma collectFuncs_not_fatal (headers : list string) :
  collectFuncs sched funcTypes headers <> Fatal.
Proof.
  induction headers as [|h rest IH]; [discriminate|].
  simpl. unfold headerFunc at 1.
  pose proof (parse_not_fatal h) as Hp.
  destruct (parseJavaFuncHeader sched h funcTypes) as [p| |]; simpl obind;
    [|discriminate|congruence].
  destruct (p_ok p && _ && _); simpl obind;
    (destruct (collectFuncs sched funcTypes rest); simpl obind; [discriminate|discriminate|congruence]).
Qed.

End Aggregator.

Lemma balance_not_fatal (arr : string) (m : Z) : balance arr m <> Fatal.
Proof.
  destruct (Z.lt_ge_cases m 0) as [Hm|Hm].
  - rewrite balance_negative by exact Hm. discriminate.
  - destruct (balance_cases arr m Hm) as [E|(g & b & t & _ & _ & _ & E)];
      rewrite E; discriminate.
Qed.

Lemma extractLoop_not_fatal (content : string) (n fi : nat) (funcs : list Function) :
  Forall (fun fn => fn_Header fn <> EmptyString) funcs ->
  extractLoop content n fi funcs <> Fatal.
Proof.
  revert fi funcs; induction n as [|n IH]; intros fi funcs Hall; [discriminate|].
  simpl. destruct (funcs !! fi) as [fn|] eqn:El; [|discriminate].
  pose proof (Forall_lookup_1 _ _ _ _ Hall El) as Hh. simpl in Hh.
  rewrite len_zero, (eqb_empty_false _ Hh).
  pose proof (balance_not_fatal content (Index content (fn_Header fn))) as Hb.
  destruct (balance content (Index content (fn_Header fn))) as [src| |];
    simpl obind; [|discriminate|congruence].
  destruct (0 <? len src)%Z; apply IH.
  - apply Forall_insert; [exact Hall|exact Hh].
  - apply Forall_app; split; [apply Forall_take|apply Forall_drop]; exact Hall.
Qed.

Lemma qualifies_extracted (funcTypes : gmap string bool) (content : string)
    (fn : Function) :
  qualifies funcTypes fn -> qualifies funcTypes (extracted content fn).
Proof. unfold extracted. destruct (balance _ _); auto. Qed.

Lemma qualifies_header (funcTypes : gmap string bool) (l : list Function) :
  Forall (qualifies funcTypes) l ->
  Forall (fun fn => fn_Header fn <> EmptyString) l.
Proof. apply List.Forall_impl. intros fn (H & _). exact H. Qed.

Lemma funcHeaders_qualifies (env : Env) (sched : Schedule) (path : string)
    (funcTypes : gmap string bool) (fns : list Function) :
  funcHeaders env sched path funcTypes = Returns fns ->
  Forall (qualifies funcTypes) fns /\
  Forall (fun fn => fn_Source fn = EmptyString) fns.
Proof. unfold funcHeaders. apply collectFuncs_qualifies. Qed.

(** X14: [ParseFile] never ends the process through [log.Fatal]: the header
    stored for a surviving Function holds the parenthesis of the accepted
    header, so the test for an empty header in [extractFuncSrc] never
    fires. *)
Theorem ParseFile_never_fatal (env : Env) (sched : Schedule) (path : string)
    (funcTypes : gmap string bool) :
  ParseFile env sched path funcTypes <> Fatal.
Proof.
  unfold ParseFile.
  destruct (funcHeaders env sched path funcTypes) as [fns| |] eqn:E; simpl obind.
  - destruct (0 <? length fns)%nat; [|discriminate].
    unfold extractFuncSrc. destruct (readFile env path) as [content|];
      [|discriminate].
    destruct (funcHeaders_qualifies _ _ _ _ _ E) as [Q _].
    pose proof (extractLoop_not_fatal content (length fns) 0 fns
                  (qualifies_header _ _ Q)) as Hn.
    simpl f_Funcs. destruct (extractLoop content (length fns) 0 fns);
      simpl obind; [discriminate|discriminate|congruence].
  - discriminate.
  - exfalso. unfold funcHeaders in E. exact (collectFuncs_not_fatal _ _ _ E).
Qed.

(** X15: every Function of a File that [ParseFile] returns has a header
    that is not empty and holds no opening brace, input and output types
    that are not empty, and only desired types of the universe in both;
    with ok = true the File carries the hash of the path as id, the path,
    and the last segment of the path as name. *)
Theorem ParseFile_functions_qualify (env : Env) (sched : Schedule) (path : string)
    (funcTypes : gmap string bool) (file : File) (ok : bool) :
  ParseFile env sched path funcTypes = Returns (file, ok) ->
  Forall (qualifies funcTypes) (f_Funcs file) /\
  (ok = true ->
   f_Id file = hash path /\ f_Path file = path /\
   f_Name file = List.last (Split path "/") EmptyString).
Proof.
  unfold ParseFile. intros H.
  destruct (funcHeaders env sched path funcTypes) as [fns| |] eqn:E;
    simpl obind in H; try discriminate.
  destruct (funcHeaders_qualifies _ _ _ _ _ E) as [Q _].
  destruct (0 <? length fns)%nat.
  2:{ injection H as <- <-. split; [constructor|discriminate]. }
  unfold extractFuncSrc in H. destruct (readFile env path) as [content|].
  2:{ simpl obind in H. injection H as <- <-. simpl. auto. }
  simpl f_Funcs in H.
  destruct (extractLoop content (length fns) 0 fns) as [r| |] eqn:El;
    simpl obind in H; try discriminate.
  injection H as <- <-. simpl. split; [|auto].
  apply (extractLoop_returns content fns [] r) in El
    as [(_ & ->)|(front & fn & -> & _ & _ & ->)]; simpl app.
  - apply Forall_map. eapply Forall_impl; [exact Q|].
    intros fn. apply qualifies_extracted.
  - apply Forall_app in Q as [Q _].
    apply Forall_map. eapply Forall_impl; [exact Q|].
    intros g. apply qualifies_extracted.
Qed.

Lemma ParseFile_functions_qualify_witness :
  Forall (qualifies scenarioTypesWithModifiers)
    [setSource functionG "public static int g(int b) { return b; }"] /\
  (true = true ->
   hash "src/A.java" = hash "src/A.java" /\ "src/A.java" = "src/A.java" /\
   "A.java" = List.last (Split "src/A.java" "/") EmptyString).
Proof.
  apply (ParseFile_functions_qualify (envOf [headerF; headerG] truncatedF) reverseOrder
           "src/A.java" scenarioTypesWithModifiers
           (mkFile (hash "src/A.java") "A.java" "src/A.java"
              [setSource functionG "public static int g(int b) { return b; }"]) true).
  vm_compute. reflexivity.
Defined.

(** X16: when the file exists, no Function of the File that [ParseFile]
    returns has an empty source. *)
Theorem ParseFile_sources_filled (env : Env) (sched : Schedule) (path : string)
    (funcTypes : gmap string bool) (content : string) (file : File) (ok : bool) :
  readFile env path = Some content ->
  ParseFile env sched path funcTypes = Returns (file, ok) ->
  Forall (fun fn => fn_Source fn <> EmptyString) (f_Funcs file).
Proof.
  unfold ParseFile. intros Hd H.
  destruct (funcHeaders env sched path funcTypes) as [fns| |];
    simpl obind in H; try discriminate.
  destruct (0 <? length fns)%nat.
  2:{ injection H as <- <-. constructor. }
  rewrite Hd in H. unfold extractFuncSrc in H. simpl f_Funcs in H.
  destruct (extractLoop content (length fns) 0 fns) as [r| |] eqn:El;
    simpl obind in H; try discriminate.
  injection H as <- <-. simpl.
  apply (extractLoop_returns content fns [] r) in El
    as [(Hall & ->)|(front & fn & _ & Hall & _ & ->)]; simpl app;
    apply extracted_sources; exact Hall.
Qed.

Lemma ParseFile_sources_filled_witness :
  Forall (fun fn => fn_Source fn <> EmptyString)
    (map (extracted wholeFile) [functionF; functionG]).
Proof.
  apply (ParseFile_sources_filled (envOf [headerF; headerG] wholeFile) programOrder
           "A.java" scenarioTypesWithModifiers wholeFile
           (mkFile (hash "A.java") "A.java" "A.java"
              (map (extracted wholeFile) [functionF; functionG])) true).
  - reflexivity.
  - vm_compute. reflexivity.
Defined.

(** X17: when there is no file at the path and at least one Function
    survived, [ParseFile] returns the File built from the headers alone,
    with ok = true and every source empty. *)
Theorem ParseFile_missing_file (env : Env) (sched : Schedule) (path : string)
    (funcTypes : gmap string bool) (fns : list Function) :
  readFile env path = None ->
  funcHeaders env sched path funcTypes = Returns fns ->
  fns <> [] ->
  ParseFile env sched path funcTypes
  = Returns (mkFile (hash path) (List.last (Split path "/") EmptyString) path fns, true) /\
  Forall (fun fn => fn_Source fn = EmptyString) fns.
Proof.
  intros Hd Hf Hne. split; [|exact (proj2 (funcHeaders_qualifies _ _ _ _ _ Hf))].
  unfold ParseFile. rewrite Hf. simpl obind.
  destruct fns as [|fn fns]; [congruence|]. simpl length. simpl Nat.ltb. cbv iota.
  rewrite Hd. reflexivity.
Qed.

Lemma ParseFile_missing_file_witness :
  ParseFile (mkEnv (fun _ => [headerF; headerG]) (fun _ => None)) programOrder
    "src/A.java" scenarioTypesWithModifiers
  = Returns (mkFile (hash "src/A.java") (List.last (Split "src/A.java" "/") EmptyString)
               "src/A.java" [functionF; functionG], true) /\
  Forall (fun fn => fn_Source fn = EmptyString) [functionF; functionG].
Proof.
  apply (ParseFile_missing_file (mkEnv (fun _ => [headerF; headerG]) (fun _ => None))
           programOrder "src/A.java" scenarioTypesWithModifiers [functionF; functionG]).
  - reflexivity.
  - vm_compute. reflexivity.
  - discriminate.
Defined.

Lemma acceptance_criterion_witness :
  (exists p, parseJavaFuncHeader reverseOrder scenarioA scenarioTypesWithModifiers
             = Returns p /\ p_ok p = true)
  <->
  (exists lhs rhs,
     Split (cleanHeader scenarioA) "(" = [lhs; rhs] /\
     (4 <= length (Split lhs " "))%nat /\
     (forall s, cleanHeader scenarioA <> s +:+ ";") /\
     (forall t, declaredType scenarioA t -> scenarioTypesWithModifiers !! t <> None)).
Proof.
  apply (acceptance_criterion reverseOrder scenarioA scenarioTypesWithModifiers).
  intros A l. apply Permutation_rev.
Defined.

(** ** The identity hash *)

Section Hash.

Lemma byteval_range (c : ascii) : (0 <= byteval c < 256)%Z.
Proof.
  unfold byteval. pose proof (N_ascii_bounded c). lia.
Qed.

Lemma lxor_range (a b : Z) :
  (0 <= a < 2 ^ 32)%Z -> (0 <= b < 2 ^ 32)%Z -> (0 <= Z.lxor a b < 2 ^ 32)%Z.
Proof.
  intros Ha Hb.
  assert (Hn : (0 <= Z.lxor a b)%Z) by (apply Z.lxor_nonneg; lia).
  split; [exact Hn|].
  destruct (Z.eq_dec (Z.lxor a b) 0%Z) as [->|Hz]; [lia|].
  apply Z.log2_lt_pow2; [lia|].
  pose proof (Z.log2_lxor a b ltac:(lia) ltac:(lia)) as Hl.
  assert (La : (Z.log2 a < 32)%Z).
  { destruct (Z.eq_dec a 0%Z) as [->|]; [simpl; lia|apply Z.log2_lt_pow2; lia]. }
  assert (Lb : (Z.log2 b < 32)%Z).
  { destruct (Z.eq_dec b 0%Z) as [->|]; [simpl; lia|apply Z.log2_lt_pow2; lia]. }
  lia.
Qed.

Lemma fnvStep_range (h : Z) (c : ascii) : (0 <= fnvStep h c < 2 ^ 32)%Z.
Proof. unfold fnvStep. apply Z.mod_pos_bound. lia. Qed.

Lemma fold_fnv_range (l : list ascii) (h : Z) :
  (0 <= h < 2 ^ 32)%Z -> (0 <= fold_left fnvStep l h < 2 ^ 32)%Z.
Proof.
  revert h; induction l as [|c l IH]; intros h Hh; [exact Hh|].
  simpl. apply IH. apply fnvStep_range.
Qed.

Lemma list_ascii_app (s t : string) :
  list_ascii_of_string (s +:+ t) = list_ascii_of_string s ++ list_ascii_of_string t.
Proof.
  induction s as [|a s IH]; [reflexivity|].
  rewrite app_cons. simpl. f_equal. exact IH.
Qed.

(** Multiplication by the FNV prime is undone modulo 2^32. *)
Lemma prime_cancel (x : Z) :
  (0 <= x < 2 ^ 32)%Z ->
  ((((x * 16777619) mod 2 ^ 32) * 899433627) mod 2 ^ 32 = x)%Z.
Proof.
  intros Hx. rewrite Z.mul_mod_idemp_l by lia.
  rewrite <- Z.mul_assoc. rewrite <- Z.mul_mod_idemp_r by lia.
  change ((16777619 * 899433627) mod 2 ^ 32)%Z with 1%Z.
  rewrite Z.mul_1_r. apply Z.mod_small. exact Hx.
Qed.

Lemma lxor_cancel (a b c : Z) : Z.lxor a c = Z.lxor b c -> a = b.
Proof.
  intros H.
  rewrite <- (Z.lxor_0_r a), <- (Z.lxor_0_r b), <- (Z.lxor_nilpotent c).
  rewrite <- !Z.lxor_assoc, H. reflexivity.
Qed.

Lemma lxor_cancel_l (a b c : Z) : Z.lxor c a = Z.lxor c b -> a = b.
Proof. rewrite !(Z.lxor_comm c). apply lxor_cancel. Qed.

Lemma fnvStep_inj (h1 h2 : Z) (c1 c2 : ascii) :
  (0 <= h1 < 2 ^ 32)%Z -> (0 <= h2 < 2 ^ 32)%Z ->
  fnvStep h1 c1 = fnvStep h2 c2 ->
  Z.lxor h1 (byteval c1) = Z.lxor h2 (byteval c2).
Proof.
  intros H1 H2 E. unfold fnvStep in E.
  pose proof (byteval_range c1). pose proof (byteval_range c2).
  rewrite <- (prime_cancel (Z.lxor h1 (byteval c1))) by (apply lxor_range; lia).
  rewrite <- (prime_cancel (Z.lxor h2 (byteval c2))) by (apply lxor_range; lia).
  rewrite E. reflexivity.
Qed.

Lemma fold_fnv_inj (l : list ascii) (h1 h2 : Z) :
  (0 <= h1 < 2 ^ 32)%Z -> (0 <= h2 < 2 ^ 32)%Z ->
  fold_left fnvStep l h1 = fold_left fnvStep l h2 -> h1 = h2.
Proof.
  revert h1 h2; induction l as [|c l IH]; intros h1 h2 H1 H2 E; [exact E|].
  simpl in E. apply IH in E; try apply fnvStep_range.
  apply fnvStep_inj in E; [|assumption|assumption].
  apply lxor_cancel in E. exact E.
Qed.

Lemma hash_fold (s t : string) :
  hash (s +:+ t) = fold_left fnvStep (list_ascii_of_string t) (hash s).
Proof. unfold hash. rewrite list_ascii_app, fold_left_app. reflexivity. Qed.

End Hash.

Lemma hash_range (s : string) : (0 <= hash s < 2 ^ 32)%Z.
Proof. unfold hash. apply fold_fnv_range. lia. Qed.

(** X19: two texts followed by the same suffix have the same hash exactly
    when the two texts themselves have: appending text neither creates nor
    removes a collision.  (The ids of two Functions with the same trimmed
    header differ exactly when the hashes of their names do.) *)
Theorem hash_common_suffix (s s' t : string) :
  hash (s +:+ t) = hash (s' +:+ t) <-> hash s = hash s'.
Proof.
  rewrite !hash_fold. split.
  - apply fold_fnv_inj; apply hash_range.
  - intros ->. reflexivity.
Qed.

(** X20: two texts that differ in their last byte only never have the same
    hash. *)
Theorem hash_last_byte (s : string) (c d : ascii) :
  hash (s +:+ String c EmptyString) = hash (s +:+ String d EmptyString) -> c = d.
Proof.
  rewrite !hash_fold. simpl. intros E.
  apply fnvStep_inj in E; try apply hash_range.
  apply lxor_cancel_l in E. apply byteval_inj. exact E.
Qed.

Lemma hash_last_byte_witness : "f"%char = "f"%char.
Proof.
  apply (hash_last_byte "public static int " "f" "f"). reflexivity.
Defined.

(** ** The language tables *)

Section Tables.

Lemma langMap_values (k v : string) :
  langMap !! k = Some v ->
  In v ["c"; "cpp"; "cs"; "erl"; "java"; "js"; "lsp"; "lua"; "py"].
Proof.
  intros H. apply elem_of_list_to_map_2, list_elem_of_In in H. simpl in H.
  repeat (destruct H as [H|H]; [injection H as <- <-; simpl; tauto|]).
  destruct H.
Qed.

Lemma extMap_keys (k v : string) :
  extMap !! k = Some v ->
  In k ["c"; "cpp"; "cs"; "erl"; "java"; "js"; "lsp"; "lua"; "py"] /\
  (v = "function" \/ v = "method").
Proof.
  intros H. apply elem_of_list_to_map_2, list_elem_of_In in H. simpl in H.
  repeat (destruct H as [H|H]; [injection H as <- <-; simpl; tauto|]).
  destruct H.
Qed.

End Tables.

(** X21: every extension that [getLangExt] gives for a known language has a
    term in [getFuncTerm]: the composition yields "function" or "method",
    and the empty string only for a language that is not in the table. *)
Theorem known_language_has_term (lang : string) :
  (getLangExt lang = EmptyString /\ getFuncTerm (getLangExt lang) = EmptyString) \/
  (getLangExt lang <> EmptyString /\
   (getFuncTerm (getLangExt lang) = "function" \/
    getFuncTerm (getLangExt lang) = "method")).
Proof.
  unfold getLangExt. destruct (langMap !! TrimSpace lang) as [v|] eqn:E.
  - right. apply langMap_values in E. simpl in E.
    repeat (destruct E as [<-|E]; [split; [discriminate|vm_compute; tauto]|]).
    destruct E.
  - left. split; reflexivity.
Qed.

(** X22: [ParseFile] looks the function term up under the name of the file,
    not under its extension: for every path whose last segment is not
    itself one of the nine extension names (any name with a dot in it, for
    one), the pattern given to grep is the empty string. *)
Theorem grepTerm_empty (path : string) :
  ~ In (List.last (Split path "/") EmptyString)
       ["c"; "cpp"; "cs"; "erl"; "java"; "js"; "lsp"; "lua"; "py"] ->
  grepTerm path = EmptyString.
Proof.
  intros Hn. unfold grepTerm, getFuncTerm.
  destruct (extMap !! List.last (Split path "/") EmptyString) as [v|] eqn:E;
    [|reflexivity].
  apply extMap_keys in E as [Hk _]. contradiction.
Qed.

Lemma grepTerm_empty_witness : grepTerm "src/main/Calc.java" = EmptyString.
Proof.
  apply (grepTerm_empty "src/main/Calc.java").
  vm_compute. intros H.
  repeat (destruct H as [H|H]; [discriminate H|]). exact H.
Defined.

(** ** Slice insertion *)

Section SliceInsert.

Import Slices.

Lemma insert_shape (arr : list ascii) (i L : nat) (item : ascii) :
  (i <= L)%nat -> (L < length arr)%nat ->
  <[i := item]> (copyBytes arr (i + 1) i (Nat.min (L + 1 - (i + 1)) (L + 1 - i)))
  = (take i arr ++ [item]) ++ take (L - i) (drop i arr) ++ drop (L + 1) arr.
Proof.
  intros Hi HL. unfold copyBytes.
  replace (Nat.min (L + 1 - (i + 1)) (L + 1 - i)) with (L - i)%nat by lia.
  replace (i + 1 + (L - i))%nat with (L + 1)%nat by lia.
  destruct (lookup_lt_is_Some_2 arr i ltac:(lia)) as [x Hx].
  rewrite Nat.add_1_r, (take_S_r arr i x Hx).
  rewrite insert_app_l by (rewrite List.length_app, length_take; simpl; lia).
  rewrite insert_app_r_alt by (rewrite length_take; lia).
  rewrite length_take. replace (i - Nat.min i (length arr))%nat with 0%nat by lia.
  reflexivity.
Qed.

End SliceInsert.

(** X23: on a slice with spare capacity and for an index between 0 and the
    length, [insert] returns the slice one element longer, with the item at
    the index, the elements before it unchanged, those from the index on
    moved up by one, and the capacity and the bytes of the backing array
    beyond the new length as they were. *)
Theorem insert_inserts (slice : Slices.ByteSlice) (index : Z) (item : ascii) :
  Slices.wf slice ->
  (Slices.s_len slice < Slices.cap slice)%Z ->
  (0 <= index <= Slices.s_len slice)%Z ->
  exists slice',
    Slices.insert slice index item = Returns slice' /\
    Slices.s_len slice' = (Slices.s_len slice + 1)%Z /\
    Slices.cap slice' = Slices.cap slice /\
    Slices.elems slice'
      = take (Z.to_nat index) (Slices.elems slice) ++ item
          :: drop (Z.to_nat index) (Slices.elems slice) /\
    drop (Z.to_nat (Slices.s_len slice + 1)) (Slices.s_array slice')
      = drop (Z.to_nat (Slices.s_len slice + 1)) (Slices.s_array slice).
Proof.
  destruct slice as [arr len0]. unfold Slices.wf, Slices.cap, Slices.elems. simpl.
  intros Hwf Hcap Hidx.
  unfold Slices.insert, Slices.cap. simpl.
  destruct (Z.ltb_spec (Z.of_nat (length arr)) (len0 + 1)); [lia|].
  destruct (Z.ltb_spec (index + 1) 0); [lia|].
  destruct (Z.ltb_spec (len0 + 1) (index + 1)); [lia|].
  destruct (Z.ltb_spec index 0); [lia|].
  destruct (Z.ltb_spec (len0 + 1) index); [lia|].
  destruct (Z.leb_spec (len0 + 1) index); [lia|].
  simpl orb. cbv iota.
  set (i := Z.to_nat index). set (L := Z.to_nat len0).
  assert (Hi : (i <= L)%nat) by (unfold i, L; lia).
  assert (HL : (L < length arr)%nat) by (unfold L; lia).
  replace (Z.to_nat (len0 + 1)) with (L + 1)%nat by (unfold L; lia).
  rewrite (insert_shape arr i L item Hi HL).
  eexists. split; [reflexivity|]. simpl.
  assert (Hlen : length ((take i arr ++ [item]) ++ take (L - i) (drop i arr)) = (L + 1)%nat).
  { rewrite !List.length_app, !length_take, length_drop. simpl. lia. }
  split; [reflexivity|]. split; [|split].
  - rewrite !List.length_app, !length_take, !length_drop. simpl. lia.
  - replace (Z.to_nat (len0 + 1)) with (L + 1)%nat by (unfold L; lia).
    rewrite List.app_assoc, (take_app_length' _ _ (L + 1)) by (symmetry; exact Hlen).
    rewrite take_take. replace (Nat.min i L) with i by lia.
    rewrite <- List.app_assoc. simpl. do 2 f_equal.
    rewrite take_drop_commute. replace (i + (L - i))%nat with L by lia. reflexivity.
  - replace (Z.to_nat (len0 + 1)) with (L + 1)%nat by (unfold L; lia).
    rewrite List.app_assoc, (drop_app_length' _ _ (L + 1)) by (symmetry; exact Hlen).
    reflexivity.
Qed.

Lemma insert_inserts_witness :
  exists slice',
    Slices.insert (Slices.mkSlice (list_ascii_of_string "abcd??") 4) 1 "X" = Returns slice' /\
    Slices.s_len slice' = (4 + 1)%Z /\
    Slices.cap slice' = 6%Z /\
    Slices.elems slice' = list_ascii_of_string "aXbcd" /\
    drop 5 (Slices.s_array slice') = list_ascii_of_string "?".
Proof.
  apply (insert_inserts (Slices.mkSlice (list_ascii_of_string "abcd??") 4) 1 "X").
  - unfold Slices.wf, Slices.cap. simpl. lia.
  - unfold Slices.cap. simpl. lia.
  - simpl. lia.
Defined.

(** X24: [insert] panics exactly when the slice has no spare capacity or
    the index is negative or beyond the length. *)
Theorem insert_panics_iff (slice : Slices.ByteSlice) (index : Z) (item : ascii) :
  Slices.wf slice ->
  Slices.insert slice index item = Panics <->
  (Slices.cap slice <= Slices.s_len slice \/ index < 0 \/ Slices.s_len slice < index)%Z.
Proof.
  destruct slice as [arr len0]. unfold Slices.wf, Slices.cap. simpl. intros Hwf.
  unfold Slices.insert, Slices.cap. simpl.
  destruct (Z.ltb_spec (Z.of_nat (length arr)) (len0 + 1)); [split; [lia|reflexivity]|].
  destruct (Z.ltb_spec (index + 1) 0); [split; [lia|reflexivity]|].
  destruct (Z.ltb_spec (len0 + 1) (index + 1)); [split; [lia|reflexivity]|].
  destruct (Z.ltb_spec index 0); [split; [lia|reflexivity]|].
  destruct (Z.ltb_spec (len0 + 1) index); [split; [lia|reflexivity]|].
  destruct (Z.leb_spec (len0 + 1) index); [split; [lia|reflexivity]|].
  simpl orb. cbv iota. split; [discriminate|lia].
Qed.

Lemma insert_panics_iff_witness :
  Slices.insert (Slices.mkSlice (list_ascii_of_string "abcd") 4) 1 "X" = Panics <->
  (4 <= 4 \/ 1 < 0 \/ 4 < 1)%Z.
Proof.
  apply (insert_panics_iff (Slices.mkSlice (list_ascii_of_string "abcd") 4) 1 "X").
  unfold Slices.wf, Slices.cap. simpl. lia.
Defined.

(** ** Where the aggregator panics *)

Section Crashes.

Variable content : string.

Lemma extracted_header (fn : Function) :
  fn_Header (extracted content fn) = fn_Header fn.
Proof. unfold extracted. destruct (balance _ _); reflexivity. Qed.

(** The loop over a run of Functions whose extraction succeeds. *)
Lemma extractLoop_prefix (front tail done : list Function) :
  Forall (extractable content) front ->
  extractLoop content (length (front ++ tail)) (length done) (done ++ front ++ tail)
  = extractLoop content (length tail)
      (length (done ++ map (extracted content) front))
      ((done ++ map (extracted content) front) ++ tail).
Proof.
  revert done; induction front as [|g front IH]; intros done Hall.
  - simpl. rewrite !List.app_nil_r. reflexivity.
  - inversion Hall as [|? ? Hg Hfront]; subst.
    change (length ((g :: front) ++ tail)) with (S (length (front ++ tail))).
    change ((g :: front) ++ tail) with (g :: (front ++ tail)).
    rewrite extractLoop_step by exact Hg.
    rewrite IH by exact Hfront. simpl map.
    rewrite <- !List.app_assoc. reflexivity.
Qed.

End Crashes.

(** X25: the remaining cases of source extraction.  When the Functions
    before [fn] are all extracted and [fn] has a header that does not occur
    in the file, or has braces that never balance while Functions follow
    it, [extractFuncSrc] panics (no header of the File being empty). *)
Theorem extract_panics (content : string) (file : File)
    (front rest : list Function) (fn : Function) :
  f_Funcs file = front ++ fn :: rest ->
  Forall (fun g => fn_Header g <> EmptyString) (f_Funcs file) ->
  Forall (extractable content) front ->
  ((Index content (fn_Header fn) < 0)%Z \/
   (balance content (Index content (fn_Header fn)) = Returns EmptyString /\ rest <> [])) ->
  extractFuncSrc (Some content) file = Panics.
Proof.
  intros Hf Hhead Hall Hcase. unfold extractFuncSrc. rewrite Hf in *.
  pose proof (extractLoop_prefix content front (fn :: rest) [] Hall) as E.
  change (length (@nil Function)) with 0%nat in E.
  change ([] ++ front ++ fn :: rest) with (front ++ fn :: rest) in E.
  rewrite E. clear E. simpl app.
  apply Forall_app in Hhead as [Hfront Hrest].
  inversion Hrest as [|? ? Hfn Hrest']; subst.
  destruct Hcase as [Hneg|[Hb Hne]].
  - simpl extractLoop.
    rewrite (list_lookup_middle _ rest fn _ eq_refl).
    rewrite len_zero, (eqb_empty_false _ Hfn), (balance_negative _ _ Hneg).
    reflexivity.
  - simpl length. rewrite extractLoop_drop by assumption.
    assert (Hh : Forall (fun g => fn_Header g <> EmptyString)
                   (map (extracted content) front ++ rest)).
    { apply Forall_app; split; [|exact Hrest'].
      apply Forall_map. eapply Forall_impl; [exact Hfront|].
      intros g Hg. simpl. rewrite extracted_header. exact Hg. }
    pose proof (extractLoop_not_fatal content (length rest)
                  (S (length (map (extracted content) front))) _ Hh) as Hnf.
    destruct (extractLoop content (length rest) _ _) as [r| |] eqn:El;
      [|reflexivity|congruence].
    exfalso. revert El. apply extractLoop_short.
    + rewrite List.length_app. lia.
    + destruct rest; [congruence|simpl; lia].
Qed.

Lemma extract_panics_witness :
  extractFuncSrc (Some respaced)
    (mkFile 7 "Calc.java" "Calc.java"
       [mkFunction 1 "add" "public static int add(int a, int b)" ["int"; "int"] ["int"]
          EmptyString])
  = Panics.
Proof.
  apply (extract_panics respaced _ []
           [] (mkFunction 1 "add" "public static int add(int a, int b)"
                 ["int"; "int"] ["int"] EmptyString)).
  - reflexivity.
  - repeat constructor. discriminate.
  - constructor.
  - left. vm_compute. reflexivity.
Defined.

Section HeaderStage.

Variable sched : Schedule.
Variable funcTypes : gmap string bool.

Lemma headerFunc_panics (header : string) :
  headerFunc sched funcTypes header = Panics <-> cleanHeader header = EmptyString.
Proof.
  rewrite <- (parse_panics_iff sched header funcTypes). unfold headerFunc.
  destruct (parseJavaFuncHeader sched header funcTypes) as [p| |]; simpl obind.
  - destruct (p_ok p && _ && _); split; discriminate.
  - split; reflexivity.
  - split; discriminate.
Qed.

Lemma collectFuncs_panics (headers : list string) :
  collectFuncs sched funcTypes headers = Panics <->
  Exists (fun h => cleanHeader h = EmptyString) headers.
Proof.
  induction headers as [|h rest IH].
  - split; [discriminate|]. intros H. inversion H.
  - simpl. rewrite Exists_cons, <- IH, <- headerFunc_panics.
    pose proof (collectFuncs_not_fatal sched funcTypes rest) as Hnf.
    destruct (headerFunc sched funcTypes h) as [l| |] eqn:Eh; simpl obind.
    + destruct (collectFuncs sched funcTypes rest) as [r| |]; simpl obind.
      * split; [discriminate|]. intros [H|H]; discriminate.
      * split; auto.
      * congruence.
    + split; auto.
    + split; [discriminate|]. intros [H|H]; [discriminate|].
      exfalso. unfold headerFunc in Eh.
      pose proof (parse_not_fatal sched funcTypes h) as Hp.
      destruct (parseJavaFuncHeader sched h funcTypes) as [p| |]; simpl obind in Eh;
        [destruct (p_ok p && _ && _); discriminate|discriminate|congruence].
Qed.

End HeaderStage.

(** X26: the header stage of [ParseFile] panics exactly when one of the
    lines of the pipeline, with its newline, is empty once its comment is
    cut off and it is trimmed. *)
Theorem header_stage_panics_iff (env : Env) (sched : Schedule) (path : string)
    (funcTypes : gmap string bool) :
  fair sched ->
  funcHeaders env sched path funcTypes = Panics <->
  exists line, In line (headerLines env path) /\
               cleanHeader (line +:+ nl) = EmptyString.
Proof.
  intros Hfair.
  unfold funcHeaders. rewrite collectFuncs_panics, List.Exists_exists.
  split.
  - intros (h & Hin & Hc).
    apply (Permutation_in _ (Permutation_sym (Hfair _ _))) in Hin.
    apply in_map_iff in Hin as (line & <- & Hin). eauto.
  - intros (line & Hin & Hc). exists (line +:+ nl). split; [|exact Hc].
    apply (Permutation_in _ (Hfair _ _)). apply in_map_iff. eauto.
Qed.

Lemma header_stage_panics_iff_witness :
  funcHeaders (envOf [headerF; "    // only a comment"] EmptyString) reverseOrder
    "A.java" scenarioTypesWithModifiers = Panics.
Proof.
  apply (header_stage_panics_iff (envOf [headerF; "    // only a comment"] EmptyString)
           reverseOrder "A.java" scenarioTypesWithModifiers).
  - intros A l. apply Permutation_rev.
  - exists "    // only a comment". split; [simpl; tauto|vm_compute; reflexivity].
Defined.

(** X27: blanks in front of a header change nothing: the parser gives the
    same result for a header and for the header preceded by a space (the
    lines of the pipeline start with blanks). *)
Theorem leading_space_ignored (sched : Schedule) (header : string)
    (funcTypes : gmap string bool) :
  parseJavaFuncHeader sched (" " +:+ header) funcTypes
  = parseJavaFuncHeader sched header funcTypes.
Proof.
  assert (E : cleanHeader (" " +:+ header) = cleanHeader header).
  { unfold cleanHeader, Split0, Split.
    change (" " +:+ header) with (String " " header).
    change (splitFrom "//" 0 (String " " header))
      with (match splitFrom "//" 0 header with
            | piece :: rest => String " " piece :: rest
            | [] => [String " " EmptyString]
            end).
    destruct (splitFrom "//" 0 header) as [|piece rest] eqn:Es;
      [exfalso; exact (splitFrom_nonempty _ _ _ Es)|].
    unfold TrimSpace.
    change (TrimLeft (String " " piece)) with (TrimLeft piece). reflexivity. }
  unfold parseJavaFuncHeader. rewrite E. reflexivity.
Qed.
